(** * SoC Performance-Power-Thermal simulator: the simulation loop of App.tsx

    A shallow embedding of the engine part of [src/App.tsx]: the P-state
    table and fixed parameters [P], the derived workload values, [resetSim],
    [targetPIndex], and the body of the interval callback (governor, power,
    work, thermal RC, energy, overheat grace, recorded sample, end reason).

    Numbers.  A JavaScript [number] is embedded as a real number of the
    Standard Library: [Math.max]/[Math.min] are [Rmax]/[Rmin], [Math.exp] is
    [exp], [Math.round] and [toFixed] are written out with [Int_part].  The
    P-state index, an integer-valued [number], is a [Z].  Rounding error of
    IEEE doubles, infinities and NaN are outside this embedding. *)

From Stdlib Require Import Reals Lra ZArith Lia List Bool.
Import ListNotations.

Open Scope R_scope.

(** ** Outcomes of running a piece of the callback *)

(** [TypeError]: a property of [undefined] was read ([P.pstates[i].f] with
    [i] outside the table).  [OutOfFuel]: the bounded unrolling of the
    [while] loop was too short. *)
Inductive result (A : Type) : Type :=
| Ok (a : A)
| TypeError
| OutOfFuel.

Arguments Ok {A} a.
Arguments TypeError {A}.
Arguments OutOfFuel {A}.

Definition bind {A B : Type} (m : result A) (k : A -> result B) : result B :=
  match m with
  | Ok a => k a
  | TypeError => TypeError
  | OutOfFuel => OutOfFuel
  end.

Notation "'do' x <- m ; k" := (bind m (fun x => k))
  (at level 10, x name, m at level 100, k at level 200).

(** ** JavaScript number helpers *)

Module JS.

(** [const clamp = (x, lo, hi) => Math.max(lo, Math.min(hi, x))] *)
Definition clamp (x lo hi : R) : R := Rmax lo (Rmin hi x).

(** The same [clamp] on integer-valued numbers. *)
Definition clampZ (x lo hi : Z) : Z := Z.max lo (Z.min hi x).

(** [Math.round]: the nearest integer, halves towards plus infinity. *)
Definition Math_round (x : R) : Z := Int_part (x + 1 / 2).

(** [+x.toFixed(d)]: [x] rounded to [d] decimals, halves away from zero;
    from 1e21 on [toFixed] prints the number itself. *)
Definition toFixed (d : nat) (x : R) : R :=
  let ax := Rabs x in
  if Rle_dec 1e21 ax then x
  else
    let n := Int_part (ax * 10 ^ d + 1 / 2) in
    let v := IZR n / 10 ^ d in
    if Rlt_dec x 0 then - v else v.

End JS.

(** ** Data *)

(** [interface SimPoint] *)
Record SimPoint : Type := mkSimPoint {
  t : R; power : R; temp : R; perfMIPS : R;
  energyWh : R; battPct : R; f : R; V : R
}.

(** [type EndReason] *)
Inductive EndReason : Type :=
| running | completed | battery | overheat | reset.

Definition EndReason_eqb (a b : EndReason) : bool :=
  match a, b with
  | running, running | completed, completed | battery, battery
  | overheat, overheat | reset, reset => true
  | _, _ => false
  end.

(** One entry of [P.pstates]. *)
Record PState : Type := mkPState { ps_f : R; ps_V : R }.

(** The fixed model parameters, [const P = { ... } as const], and [Rth]. *)
Module P.
Definition Pleak0 : R := 0.6.
Definition kV : R := 2.0.
Definition gamma : R := 0.04.
Definition IPCmin : R := 0.5.
Definition IPCmax : R := 2.0.
Definition dt : R := 0.25.
Definition fMin : R := 0.6.
Definition fMax : R := 3.5.
Definition vMin : R := 0.6.
Definition vMax : R := 1.1.
Definition pstates : list PState :=
  [ mkPState 3.0 1.05;
    mkPState 2.6 0.98;
    mkPState 2.2 0.92;
    mkPState 1.8 0.86;
    mkPState 1.4 0.80;
    mkPState 1.0 0.74;
    mkPState 0.8 0.70 ].
Definition slewStepSec : R := 0.3.
End P.

Definition Rth : R := 8.0.

(** [P.pstates.length] as a number. *)
Definition pstates_length : Z := Z.of_nat (length P.pstates).

(** [P.pstates[i]]: [None] stands for [undefined]. *)
Definition pstate_at (i : Z) : option PState :=
  if (i <? 0)%Z then None else nth_error P.pstates (Z.to_nat i).

(** The user knobs read by the callback (the [useState] values). *)
Record Config : Type := mkConfig {
  workloadMix : R;
  ceffNF : R;
  manualOverride : bool;
  freqGHz : R;
  vdd : R;
  ambient : R;
  thermalLimit : R;
  overheatGrace : R;
  batteryWh : R;
  workloadGI : R;
  speed : R;
  tauSec : R
}.

(** The mutable refs of the loop ([useRef]). *)
Record Refs : Type := mkRefs {
  T_ref : R;
  EWh_ref : R;
  t_ref : R;
  overheatAccum_ref : R;
  remainingGI_ref : R;
  slewCooldown_ref : R;
  pIndex_ref : Z;
  f_ref : R;
  V_ref : R
}.

(** The React state of the simulation ([useState]). *)
Record SimState : Type := mkSimState {
  series : list SimPoint;
  endReason : EndReason;
  remainingGI : R;
  throttling : bool
}.

(** The whole engine: refs and React state. *)
Record Engine : Type := mkEngine {
  refs : Refs;
  sim : SimState
}.

(** ** Derived from workload *)

(** [const alpha = 0.5 + 0.5 * workloadMix] *)
Definition alpha (c : Config) : R := 0.5 + 0.5 * workloadMix c.

(** [const ipc = P.IPCmin + (P.IPCmax - P.IPCmin) * workloadMix] *)
Definition ipc (c : Config) : R :=
  P.IPCmin + (P.IPCmax - P.IPCmin) * workloadMix c.

(** [targetPIndex]: [clamp(Math.round((1 - workloadMix) * (n - 1)), 0, n - 1)] *)
Definition targetPIndex (c : Config) : Z :=
  let n := pstates_length in
  let idx := JS.Math_round ((1 - workloadMix c) * IZR (n - 1)) in
  JS.clampZ idx 0 (n - 1).

(** ** [resetSim] *)

Definition resetSim (c : Config) : result Engine :=
  match pstate_at 2 with
  | Some ps =>
      Ok {| refs := {| T_ref := ambient c; EWh_ref := 0; t_ref := 0;
                       overheatAccum_ref := 0;
                       remainingGI_ref := workloadGI c;
                       slewCooldown_ref := 0;
                       pIndex_ref := 2; f_ref := ps_f ps; V_ref := ps_V ps |};
            sim := {| series := []; endReason := running;
                      remainingGI := workloadGI c; throttling := false |} |}
  | None => TypeError
  end.

(** ** One sub-step of the interval callback *)

Definition HYST : R := 2.0.
Definition OVERHEAT_MARGIN : R := 5.

(** [Math.max(0, 100 * (1 - EWh / batteryWh))].  For [batteryWh = 0] the
    JavaScript quotient is an infinity or NaN, which the reals do not have
    (there [x / 0 = 0]): what is proved from the value of this percentage
    assumes a capacity other than 0. *)
Definition battPctOf (c : Config) (EWh : R) : R :=
  Rmax 0 (100 * (1 - EWh / batteryWh c)).

(** The local [desired] of the governor after the thermal and the battery
    rule, with the local [thermalTriggered]. *)
Definition desiredIndex (c : Config) (r : Refs) : Z * bool :=
  let cur := pIndex_ref r in
  let d0 := targetPIndex c in
  let '(d1, trig) :=
    if Rge_dec (T_ref r) (thermalLimit c)
    then (Z.min (cur + 1) (pstates_length - 1), true)
    else if Rgt_dec (T_ref r) (thermalLimit c - HYST)
         then (Z.max cur d0, false)
         else (d0, false) in
  let d2 := if Rlt_dec (battPctOf c (EWh_ref r)) 20 then Z.max d1 3 else d1 in
  (d2, trig).

(** What the governor block leaves behind: the cooldown, the index, the
    active operating point and [thermalTriggered]. *)
Record Gov : Type := mkGov {
  g_slewCooldown : R;
  g_pIndex : Z;
  g_f : R;
  g_V : R;
  g_thermalTriggered : bool
}.

(** The cooldown after the governor's [if (cooldown > 0) cooldown = max(0, cooldown - h)]. *)
Definition cooldownAfter (h : R) (r : Refs) : R :=
  if Rgt_dec (slewCooldown_ref r) 0
  then Rmax 0 (slewCooldown_ref r - h)
  else slewCooldown_ref r.

(** The index the slew limiter moves to, one table step towards [desired]. *)
Definition slewTowards (desired cur : Z) : Z :=
  if (desired <? cur)%Z then (cur - 1)%Z
  else if (desired >? cur)%Z then (cur + 1)%Z
  else cur.

(** "Governor with hysteresis": the [if (!manualOverride) ... else ...] block. *)
Definition governor (c : Config) (h : R) (r : Refs) : result Gov :=
  if manualOverride c then
    Ok (mkGov (slewCooldown_ref r) (pIndex_ref r)
              (JS.clamp (freqGHz c) P.fMin P.fMax)
              (JS.clamp (vdd c) P.vMin P.vMax)
              false)
  else
    let cd := cooldownAfter h r in
    let cur := pIndex_ref r in
    let '(desired, trig) := desiredIndex c r in
    if Req_dec_T cd 0 then
      let idx := slewTowards desired cur in
      if (idx =? cur)%Z then Ok (mkGov cd cur (f_ref r) (V_ref r) trig)
      else
        match pstate_at idx with
        | Some ps => Ok (mkGov P.slewStepSec idx (ps_f ps) (ps_V ps) trig)
        | None => TypeError
        end
    else Ok (mkGov cd cur (f_ref r) (V_ref r) trig).

(** [Pdyn], [Pleak], [Ptot] at an operating point and a temperature. *)
Definition Pdyn (c : Config) (fq vv : R) : R := ceffNF c * vv * vv * fq * alpha c.

Definition Pleak (vv tt : R) : R :=
  P.Pleak0 * exp (P.kV * (vv - 0.8)) * exp (P.gamma * (tt - 25)).

Definition Ptot (c : Config) (fq vv tt : R) : R := Pdyn c fq vv + Pleak vv tt.

(** [Math.max(0, ipc * f)] *)
Definition perfGIPS (c : Config) (fq : R) : R := Rmax 0 (ipc c * fq).

(** [Cth] and [tau = Rth * Cth] of the thermal RC block. *)
Definition Cth (c : Config) : R := Rmax 1e-6 (tauSec c / Rmax 1e-6 Rth).

Definition tau (c : Config) : R := Rth * Cth c.

(** [Tss = ambient + Ptot * Rth] *)
Definition Tss (c : Config) (p : R) : R := ambient c + p * Rth.

(** [T += (Tss - T) * (1 - Math.exp(-h / tau))] *)
Definition thermalStep (c : Config) (h p tt : R) : R :=
  tt + (Tss c p - tt) * (1 - exp (- h / tau c)).

(** The overheat accumulator after one sub-step at the new temperature. *)
Definition overheatStep (c : Config) (h tnew acc : R) : R :=
  if Rgt_dec tnew (thermalLimit c + OVERHEAT_MARGIN)
  then acc + h
  else Rmax 0 (acc - 2 * h).

(** The three assignments to [localEnd], in program order. *)
Definition endAfter (c : Config) (localEnd : option EndReason)
    (rem ewh acc : R) : option EndReason :=
  let e1 := if Rle_dec rem 0 then Some completed else localEnd in
  let e2 := if Rge_dec ewh (batteryWh c) then Some battery else e1 in
  if Rge_dec acc (Rmax 1 (overheatGrace c)) then Some overheat else e2.

(** What one pass through the loop body produces. *)
Record StepOut : Type := mkStepOut {
  so_refs : Refs;
  so_point : SimPoint;
  so_remainingGI : R;
  so_throttling : bool;
  so_end : option EndReason
}.

(** The loop body after the governor block: performance, power, work and
    completion, thermal RC, energy and battery, overheat grace, the recorded
    point, the throttling flag and the end reason. *)
Definition afterGovernor (c : Config) (h : R) (localEnd : option EndReason)
    (r : Refs) (g : Gov) : StepOut :=
  let fq := g_f g in
  let vv := g_V g in
  let perf := perfGIPS c fq in
  let perfM := perf * 1000 in
  let ptot := Ptot c fq vv (T_ref r) in
  let dWorkGI := perf * h in
  let rem := Rmax 0 (remainingGI_ref r - dWorkGI) in
  let shown := if Rle_dec rem 0 then 0 else rem in
  let tnew := thermalStep c h ptot (T_ref r) in
  let ewh := EWh_ref r + (ptot * h) / 3600 in
  let batt := battPctOf c ewh in
  let acc := overheatStep c h tnew (overheatAccum_ref r) in
  let tm := t_ref r + h in
  {| so_refs := {| T_ref := tnew; EWh_ref := ewh; t_ref := tm;
                   overheatAccum_ref := acc; remainingGI_ref := rem;
                   slewCooldown_ref := g_slewCooldown g;
                   pIndex_ref := g_pIndex g; f_ref := fq; V_ref := vv |};
     so_point := {| t := JS.toFixed 2 tm;
                    power := JS.toFixed 3 ptot;
                    temp := JS.toFixed 3 tnew;
                    perfMIPS := JS.toFixed 1 perfM;
                    energyWh := JS.toFixed 5 ewh;
                    battPct := JS.toFixed 2 batt;
                    f := JS.toFixed 2 fq;
                    V := JS.toFixed 2 vv |};
     so_remainingGI := shown;
     so_throttling :=
       g_thermalTriggered g
       || (if Rge_dec tnew (thermalLimit c) then true else false);
     so_end := endAfter c localEnd rem ewh acc |}.

(** The body of the [while] loop for a sub-step of size [h]. *)
Definition substep (c : Config) (h : R) (localEnd : option EndReason)
    (r : Refs) : result StepOut :=
  do g <- governor c h r;
  Ok (afterGovernor c h localEnd r g).

(** ** The interval callback *)

(** The locals of the callback together with the refs it mutates. *)
Record Loop : Type := mkLoop {
  vtime : R;
  localEnd : option EndReason;
  localThrottling : bool;
  newPoints : list SimPoint;
  l_remainingGI : R;
  l_refs : Refs
}.

(** [localEnd ?? endReason] *)
Definition coalesce (localEnd : option EndReason) (er : EndReason) : EndReason :=
  match localEnd with Some e => e | None => er end.

(** [vtime > 0 && (localEnd ?? endReason) === "running"] *)
Definition loopCond (er : EndReason) (l : Loop) : bool :=
  (if Rgt_dec (vtime l) 0 then true else false)
  && EndReason_eqb (coalesce (localEnd l) er) running.

(** One iteration of the [while] loop. *)
Definition loopBody (c : Config) (l : Loop) : result Loop :=
  let h := Rmin P.dt (vtime l) in
  do out <- substep c h (localEnd l) (l_refs l);
  Ok {| vtime := vtime l - h;
        localEnd := so_end out;
        localThrottling := so_throttling out;
        newPoints := newPoints l ++ [so_point out];
        l_remainingGI := so_remainingGI out;
        l_refs := so_refs out |}.

(** The [while] loop, unrolled at most [fuel] times. *)
Fixpoint while_loop (fuel : nat) (c : Config) (er : EndReason) (l : Loop)
    : result Loop :=
  if loopCond er l then
    match fuel with
    | O => OutOfFuel
    | S n => do l' <- loopBody c l; while_loop n c er l'
    end
  else Ok l.

Definition tickMs : R := 100.
Definition maxSpeed : R := 50.

(** [prev.length > 3000 ? prev.slice(prev.length - 1500) : prev] followed by
    the new points. *)
Definition appendPoints (prev new : list SimPoint) : list SimPoint :=
  match new with
  | [] => prev
  | _ =>
      let cap := if (3000 <? length prev)%nat
                 then skipn (length prev - 1500) prev else prev in
      cap ++ new
  end.

(** The number of loop iterations a tick can need: [vtime] is at most
    [0.1 * 50 = 5] and every iteration but the last takes [P.dt = 0.25]. *)
Definition tickFuel : nat := 20.

(** The locals of the callback at its start. *)
Definition startLoop (c : Config) (e : Engine) : Loop :=
  {| vtime := (tickMs / 1000) * JS.clamp (speed c) 1 maxSpeed;
     localEnd := None;
     localThrottling := throttling (sim e);
     newPoints := []; l_remainingGI := remainingGI (sim e);
     l_refs := refs e |}.

(** One run of the interval callback while [playing]. *)
Definition tick (c : Config) (e : Engine) : result Engine :=
  let er := endReason (sim e) in
  do l <- while_loop tickFuel c er (startLoop c e);
  Ok {| refs := l_refs l;
        sim := {| series := appendPoints (series (sim e)) (newPoints l);
                  endReason :=
                    match localEnd l with
                    | Some r => if EndReason_eqb er running then r else er
                    | None => er
                    end;
                  remainingGI := l_remainingGI l;
                  throttling := localThrottling l |} |}.

(** A run of sub-steps, each with the knobs and the step size it was executed
    with (the knobs may change between sub-steps). *)
Fixpoint substeps (steps : list (Config * R)) (r : Refs) : result Refs :=
  match steps with
  | [] => Ok r
  | (c, h) :: rest => do out <- substep c h None r; substeps rest (so_refs out)
  end.

(** ** Knob settings and states used below *)

(** The initial values of the knobs ([useState(...)]). *)
Definition defaultConfig : Config :=
  {| workloadMix := 0.9; ceffNF := 1.2; manualOverride := false;
     freqGHz := 2.2; vdd := 0.9; ambient := 25; thermalLimit := 42;
     overheatGrace := 5; batteryWh := 0.75; workloadGI := 1000;
     speed := 75; tauSec := 60 |}.

(** The defaults with "Manual f/V override" ticked and Vdd at 0.80 V. *)
Definition manualConfig : Config :=
  {| workloadMix := 0.9; ceffNF := 1.2; manualOverride := true;
     freqGHz := 2.2; vdd := 0.8; ambient := 25; thermalLimit := 42;
     overheatGrace := 5; batteryWh := 0.75; workloadGI := 1000;
     speed := 75; tauSec := 60 |}.

(** The defaults with the workload slider at the memory-bound end. *)
Definition memoryBoundConfig : Config :=
  {| workloadMix := 0; ceffNF := 1.2; manualOverride := false;
     freqGHz := 2.2; vdd := 0.9; ambient := 25; thermalLimit := 42;
     overheatGrace := 5; batteryWh := 0.75; workloadGI := 1000;
     speed := 75; tauSec := 60 |}.

(** A very small job on a very small battery, played at speed 1. *)
Definition tinyConfig : Config :=
  {| workloadMix := 0.9; ceffNF := 1.2; manualOverride := false;
     freqGHz := 2.2; vdd := 0.9; ambient := 25; thermalLimit := 42;
     overheatGrace := 5; batteryWh := 0.00001; workloadGI := 0.1;
     speed := 1; tauSec := 60 |}.

(** The defaults with a negative number typed into the workload field. *)
Definition negativeWorkConfig : Config :=
  {| workloadMix := 0.9; ceffNF := 1.2; manualOverride := false;
     freqGHz := 2.2; vdd := 0.9; ambient := 25; thermalLimit := 42;
     overheatGrace := 5; batteryWh := 0.75; workloadGI := -5;
     speed := 75; tauSec := 60 |}.

(** The refs as [resetSim] leaves them. *)
Definition freshRefs (c : Config) : Refs :=
  {| T_ref := ambient c; EWh_ref := 0; t_ref := 0; overheatAccum_ref := 0;
     remainingGI_ref := workloadGI c; slewCooldown_ref := 0;
     pIndex_ref := 2; f_ref := 2.2; V_ref := 0.92 |}.

(** The React state as [resetSim] leaves it. *)
Definition freshSim (c : Config) : SimState :=
  {| series := []; endReason := running;
     remainingGI := workloadGI c; throttling := false |}.

(** A state at the last table entry whose temperature sits exactly on the
    default thermal limit. *)
Definition bottomRefs : Refs :=
  {| T_ref := 42; EWh_ref := 0; t_ref := 0; overheatAccum_ref := 0;
     remainingGI_ref := 1000; slewCooldown_ref := 0;
     pIndex_ref := 6; f_ref := 0.8; V_ref := 0.70 |}.

(** A state in the middle of the table at exactly the default thermal limit. *)
Definition limitRefs : Refs :=
  {| T_ref := 42; EWh_ref := 0; t_ref := 0; overheatAccum_ref := 0;
     remainingGI_ref := 1000; slewCooldown_ref := 0;
     pIndex_ref := 2; f_ref := 2.2; V_ref := 0.92 |}.


(** The engine right after [resetSim] with the tiny job, and the same
    engine with the run already stopped for overheating. *)
Definition tinyStart : Engine :=
  {| refs := freshRefs tinyConfig; sim := freshSim tinyConfig |}.

Definition tinyStopped : Engine :=
  {| refs := freshRefs tinyConfig;
     sim := {| series := []; endReason := overheat;
               remainingGI := 0.1; throttling := false |} |}.

(** The refs a run can be in: those of a reset, and those any sub-step
    leaves from there, whatever the knobs were at that sub-step. *)
Inductive reachable : Refs -> Prop :=
| reach_reset (c : Config) : reachable (freshRefs c)
| reach_substep (c : Config) (h : R) (le : option EndReason) (r : Refs)
    (out : StepOut) :
    reachable r -> substep c h le r = Ok out -> reachable (so_refs out).

(** ** The rest of the component *)

(** The effect on [[workloadGI, playing]]:
    [if (!playing) { remainingGI_ref.current = workloadGI; setRemainingGI(workloadGI); }].
    It runs when the workload field changes and when [playing] changes, so
    in particular right after Pause. *)
Definition syncWorkload (c : Config) (playing : bool) (e : Engine) : Engine :=
  if playing then e
  else
    {| refs := {| T_ref := T_ref (refs e); EWh_ref := EWh_ref (refs e);
                  t_ref := t_ref (refs e);
                  overheatAccum_ref := overheatAccum_ref (refs e);
                  remainingGI_ref := workloadGI c;
                  slewCooldown_ref := slewCooldown_ref (refs e);
                  pIndex_ref := pIndex_ref (refs e);
                  f_ref := f_ref (refs e); V_ref := V_ref (refs e) |};
       sim := {| series := series (sim e); endReason := endReason (sim e);
                 remainingGI := workloadGI c;
                 throttling := throttling (sim e) |} |}.

(** [progressPct]: [done = Math.max(0, workloadGI - remainingGI)], then
    [workloadGI > 0 ? clamp((100 * done) / workloadGI, 0, 100) : 0]. *)
Definition progressPct (c : Config) (rem : R) : R :=
  let done := Rmax 0 (workloadGI c - rem) in
  if Rgt_dec (workloadGI c) 0
  then JS.clamp ((100 * done) / workloadGI c) 0 100
  else 0.

(** The virtual time one callback may spend:
    [(tickMs / 1000) * clamp(speed, 1, maxSpeed)]. *)
Definition budget (c : Config) : R :=
  (tickMs / 1000) * JS.clamp (speed c) 1 maxSpeed.

(** The engines the component can hold: what [resetSim] leaves (the values
    at mount are those of a reset with the initial knobs), what the interval
    callback makes of such an engine, and what the workload effect makes of
    it, each with whatever knobs are set at that moment. *)
Inductive played : Engine -> Prop :=
| played_reset (c : Config) (e : Engine) :
    resetSim c = Ok e -> played e
| played_tick (c : Config) (e e' : Engine) :
    played e -> tick c e = Ok e' -> played e'
| played_sync (c : Config) (playing : bool) (e : Engine) :
    played e -> played (syncWorkload c playing e).

(** The same, for a session in which the manual override is never on. *)
Inductive played_auto : Engine -> Prop :=
| auto_reset (c : Config) (e : Engine) :
    resetSim c = Ok e -> played_auto e
| auto_tick (c : Config) (e e' : Engine) :
    played_auto e -> manualOverride c = false -> tick c e = Ok e' ->
    played_auto e'
| auto_sync (c : Config) (playing : bool) (e : Engine) :
    played_auto e -> played_auto (syncWorkload c playing e).

(** What every sub-step keeps true of the refs: the index inside the table,
    the operating point inside the frequency and voltage bounds, the
    cooldown inside its window, and the overheat accumulator between 0 and
    the clock. *)
Definition refs_ok (r : Refs) : Prop :=
  (0 <= pIndex_ref r <= 6)%Z /\
  P.fMin <= f_ref r <= P.fMax /\
  P.vMin <= V_ref r <= P.vMax /\
  0 <= slewCooldown_ref r <= P.slewStepSec /\
  0 <= overheatAccum_ref r <= t_ref r.

(** A state one step from the top of the table with 0.7 of the default
    0.75 Wh already drawn. *)
Definition lowBatteryRefs : Refs :=
  {| T_ref := 30; EWh_ref := 0.7; t_ref := 100; overheatAccum_ref := 0;
     remainingGI_ref := 500; slewCooldown_ref := 0;
     pIndex_ref := 1; f_ref := 2.6; V_ref := 0.98 |}.

(** The defaults with the override ticked at the top of both sliders
    (3.5 GHz, 1.1 V). *)
Definition hotConfig : Config :=
  {| workloadMix := 0.9; ceffNF := 1.2; manualOverride := true;
     freqGHz := 3.5; vdd := 1.1; ambient := 25; thermalLimit := 42;
     overheatGrace := 5; batteryWh := 0.75; workloadGI := 1000;
     speed := 75; tauSec := 60 |}.

(** The defaults with the override ticked at the bottom of both sliders
    (0.6 GHz, 0.6 V). *)
Definition coolConfig : Config :=
  {| workloadMix := 0.9; ceffNF := 1.2; manualOverride := true;
     freqGHz := 0.6; vdd := 0.6; ambient := 25; thermalLimit := 42;
     overheatGrace := 5; batteryWh := 0.75; workloadGI := 1000;
     speed := 75; tauSec := 60 |}.

(** A chip at 60 degrees, 18 over the default limit, that has been too hot
    for 4.9 of the 5 seconds of grace. *)
Definition hotRefs : Refs :=
  {| T_ref := 60; EWh_ref := 0.01; t_ref := 30; overheatAccum_ref := 4.9;
     remainingGI_ref := 900; slewCooldown_ref := 0;
     pIndex_ref := 2; f_ref := 2.2; V_ref := 0.92 |}.

(** A chip back at 25 degrees with one second still on the overheat
    accumulator. *)
Definition cooledRefs : Refs :=
  {| T_ref := 25; EWh_ref := 0.01; t_ref := 30; overheatAccum_ref := 1;
     remainingGI_ref := 900; slewCooldown_ref := 0;
     pIndex_ref := 2; f_ref := 2.2; V_ref := 0.92 |}.

(** A chip at 50 degrees. *)
Definition warmRefs : Refs :=
  {| T_ref := 50; EWh_ref := 0.01; t_ref := 30; overheatAccum_ref := 0;
     remainingGI_ref := 900; slewCooldown_ref := 0;
     pIndex_ref := 2; f_ref := 2.2; V_ref := 0.92 |}.

(** * Properties *)

(** ** Numbers *)

Lemma Math_round_eval (x : R) (z : Z) :
  IZR z - 1 / 2 <= x < IZR z + 1 / 2 -> JS.Math_round x = z.
Proof.
  intros [Hlo Hhi]. unfold JS.Math_round.
  symmetry. apply Int_part_spec. lra.
Qed.

Lemma pow10_pos (d : nat) : 0 < 10 ^ d.
Proof. apply pow_lt. lra. Qed.

(** [toFixed] at a number whose scaled magnitude is within a half of [n]. *)
Lemma toFixed_eval (d : nat) (x : R) (n : Z) :
  0 <= x < 1e21 ->
  IZR n - 1 / 2 <= x * 10 ^ d < IZR n + 1 / 2 ->
  JS.toFixed d x = IZR n / 10 ^ d.
Proof.
  intros [H0 Hbig] [Hlo Hhi]. unfold JS.toFixed.
  rewrite (Rabs_right x) by lra.
  destruct (Rle_dec 1e21 x) as [Hge | _]; [lra |].
  destruct (Rlt_dec x 0) as [Hneg | _]; [lra |].
  replace (Int_part (x * 10 ^ d + 1 / 2)) with n; [reflexivity |].
  apply Int_part_spec. lra.
Qed.

(** [toFixed d] moves a number by at most half a unit of the last decimal. *)
Lemma toFixed_error (d : nat) (x : R) :
  Rabs (JS.toFixed d x - x) <= / (2 * 10 ^ d).
Proof.
  pose proof (pow10_pos d) as Hp.
  assert (Hhalf : 0 < / (2 * 10 ^ d)) by (apply Rinv_0_lt_compat; lra).
  unfold JS.toFixed.
  destruct (Rle_dec 1e21 (Rabs x)) as [_ | _].
  - replace (x - x) with 0 by ring. rewrite Rabs_R0. lra.
  - destruct (base_Int_part (Rabs x * 10 ^ d + 1 / 2)) as [Hlo Hhi].
    remember (Int_part (Rabs x * 10 ^ d + 1 / 2)) as n eqn:Hn.
    assert (Hd : Rabs (IZR n / 10 ^ d - Rabs x) <= / (2 * 10 ^ d)).
    { replace (IZR n / 10 ^ d - Rabs x)
        with ((IZR n - Rabs x * 10 ^ d) * / 10 ^ d)
        by (field; lra).
      rewrite Rabs_mult, (Rabs_right (/ 10 ^ d))
        by (apply Rle_ge, Rlt_le, Rinv_0_lt_compat; exact Hp).
      replace (/ (2 * 10 ^ d)) with (1 / 2 * / 10 ^ d) by (field; lra).
      apply Rmult_le_compat_r.
      - apply Rlt_le, Rinv_0_lt_compat; exact Hp.
      - apply Rabs_le. lra. }
    clear Hn Hlo Hhi.
    destruct (Rlt_dec x 0) as [Hneg | Hpos].
    + rewrite (Rabs_left x Hneg) in Hd.
      replace (- (IZR n / 10 ^ d) - x)
        with (- (IZR n / 10 ^ d - - x)) by ring.
      rewrite Rabs_Ropp. exact Hd.
    + rewrite (Rabs_right x) in Hd by lra. exact Hd.
Qed.

(** A number with at most two decimals is left alone by [toFixed 2]. *)
Lemma toFixed2_fixpoint (k : Z) :
  Rabs (IZR k / 100) < 1e21 -> JS.toFixed 2 (IZR k / 100) = IZR k / 100.
Proof.
  intros Hbig. unfold JS.toFixed.
  destruct (Rle_dec 1e21 (Rabs (IZR k / 100))) as [Hge | _]; [lra |].
  assert (H100 : 10 ^ 2 = 100) by (simpl; lra).
  rewrite H100.
  assert (Habs : Rabs (IZR k / 100) * 100 = IZR (Z.abs k)).
  { rewrite abs_IZR. unfold Rdiv. rewrite Rabs_mult.
    rewrite (Rabs_right (/ 100)) by lra. field. }
  rewrite Habs.
  replace (Int_part (IZR (Z.abs k) + 1 / 2)) with (Z.abs k)
    by (apply Int_part_spec; lra).
  destruct (Rlt_dec (IZR k / 100) 0) as [Hneg | Hpos].
  - assert (Hk : (k < 0)%Z) by (apply lt_IZR; lra).
    rewrite Z.abs_neq by lia. rewrite opp_IZR. lra.
  - assert (Hk : (0 <= k)%Z) by (apply le_IZR; lra).
    rewrite Z.abs_eq by lia. reflexivity.
Qed.

(** ** The P-state table and the target index *)

Lemma pstate_at_in_range (i : Z) :
  (0 <= i <= 6)%Z -> exists ps, pstate_at i = Some ps.
Proof.
  intros Hi.
  assert (Hc : i = 0%Z \/ i = 1%Z \/ i = 2%Z \/ i = 3%Z \/ i = 4%Z
               \/ i = 5%Z \/ i = 6%Z) by lia.
  destruct Hc as [-> | [-> | [-> | [-> | [-> | [-> | ->]]]]]];
    eexists; reflexivity.
Qed.

Lemma pstates_length_7 : pstates_length = 7%Z.
Proof. reflexivity. Qed.

Lemma targetPIndex_range (c : Config) : (0 <= targetPIndex c <= 6)%Z.
Proof.
  unfold targetPIndex, JS.clampZ. rewrite pstates_length_7. lia.
Qed.

(** ** Taking a sub-step apart *)

Lemma substep_inv (c : Config) (h : R) (le : option EndReason) (r : Refs)
    (out : StepOut) :
  substep c h le r = Ok out ->
  exists g, governor c h r = Ok g /\ out = afterGovernor c h le r g.
Proof.
  unfold substep, bind. destruct (governor c h r) as [g | |]; try discriminate.
  intros H. injection H as <-. exists g. split; reflexivity.
Qed.

(** ** Thermal RC *)

Lemma tau_floor (c : Config) : tau c = Rmax 8e-6 (tauSec c).
Proof.
  unfold tau, Cth, Rth.
  rewrite (Rmax_right 1e-6 8.0) by lra.
  unfold Rmax.
  destruct (Rle_dec 1e-6 (tauSec c / 8.0)) as [H1 | H1];
    destruct (Rle_dec 8e-6 (tauSec c)) as [H2 | H2]; lra.
Qed.

Lemma tau_pos (c : Config) : 0 < tau c.
Proof.
  rewrite tau_floor.
  apply Rlt_le_trans with (r2 := 8e-6); [lra | apply Rmax_l].
Qed.

(** The decay factor of one sub-step lies strictly between 0 and 1. *)
Lemma decay_bounds (c : Config) (h : R) :
  0 < h -> 0 < exp (- h / tau c) < 1.
Proof.
  intros Hh. split; [apply exp_pos |].
  rewrite <- exp_0. apply exp_increasing.
  pose proof (tau_pos c) as Ht.
  assert (Hq : 0 < h / tau c) by (apply Rdiv_lt_0_compat; assumption).
  replace (- h / tau c) with (- (h / tau c)) by (field; lra). lra.
Qed.

(** The distance to the steady state shrinks by the decay factor. *)
Lemma thermalStep_gap (c : Config) (h p tt : R) :
  thermalStep c h p tt - Tss c p = (tt - Tss c p) * exp (- h / tau c).
Proof. unfold thermalStep. ring. Qed.

(** Two sub-steps at the same power are one sub-step of the summed size. *)
Lemma thermalStep_compose (c : Config) (h1 h2 p tt : R) :
  thermalStep c h2 p (thermalStep c h1 p tt) = thermalStep c (h1 + h2) p tt.
Proof.
  pose proof (tau_pos c) as Ht.
  assert (He : exp (- (h1 + h2) / tau c)
               = exp (- h1 / tau c) * exp (- h2 / tau c)).
  { rewrite <- exp_plus. f_equal. field. lra. }
  unfold thermalStep. rewrite He. ring.
Qed.

(** The update is the solution of [dT/dt = (Tss - T) / tau] that starts at
    the previous temperature, read off after a time [h]. *)
Lemma thermalStep_start (c : Config) (p tt : R) : thermalStep c 0 p tt = tt.
Proof.
  unfold thermalStep. replace (- 0 / tau c) with 0 by (unfold Rdiv; ring).
  rewrite exp_0. ring.
Qed.

Lemma thermalStep_solves_ode (c : Config) (p tt h : R) :
  derivable_pt_lim (fun x => thermalStep c x p tt) h
    ((Tss c p - thermalStep c h p tt) / tau c).
Proof.
  pose proof (tau_pos c) as Ht. unfold thermalStep.
  set (s := Tss c p). set (k := tau c) in *.
  assert (Hin : derivable_pt_lim (fun x => - x / k) h (/ k * - 1)).
  { apply (derivable_pt_lim_ext (mult_real_fct (/ k) (- id)%F)).
    - intros x. unfold mult_real_fct, opp_fct, id. field. lra.
    - apply derivable_pt_lim_scal, derivable_pt_lim_opp, derivable_pt_lim_id. }
  assert (Hexp : derivable_pt_lim (fun x => exp (- x / k)) h
                   (exp (- h / k) * (/ k * - 1))).
  { apply (derivable_pt_lim_comp (fun x => - x / k) exp);
      [exact Hin | apply derivable_pt_lim_exp]. }
  apply (derivable_pt_lim_ext
           (fct_cte tt
            + mult_real_fct (s - tt) (fct_cte 1 - (fun x => exp (- x / k))))%F).
  - intros x. reflexivity.
  - replace ((s - (tt + (s - tt) * (1 - exp (- h / k)))) / k)
      with (0 + (s - tt) * (0 - exp (- h / k) * (/ k * - 1)))
      by (field; lra).
    apply derivable_pt_lim_plus; [apply derivable_pt_lim_const |].
    apply derivable_pt_lim_scal.
    apply derivable_pt_lim_minus; [apply derivable_pt_lim_const | exact Hexp].
Qed.

Lemma thermalStep_between (c : Config) (h p tt : R) :
  0 < h ->
  Rmin tt (Tss c p) <= thermalStep c h p tt <= Rmax tt (Tss c p).
Proof.
  intros Hh. destruct (decay_bounds c h Hh) as [Hlo Hhi].
  pose proof (thermalStep_gap c h p tt) as Hgap.
  set (e := exp (- h / tau c)) in *.
  set (s := Tss c p) in *.
  set (n := thermalStep c h p tt) in *.
  unfold Rmin, Rmax. destruct (Rle_dec tt s) as [Hle | Hgt]; nra.
Qed.

(** ** The governor *)

Lemma governor_manual (c : Config) (h : R) (r : Refs) :
  manualOverride c = true ->
  governor c h r =
  Ok (mkGov (slewCooldown_ref r) (pIndex_ref r)
            (JS.clamp (freqGHz c) P.fMin P.fMax)
            (JS.clamp (vdd c) P.vMin P.vMax) false).
Proof. intros Hm. unfold governor. rewrite Hm. reflexivity. Qed.

(** In automatic mode the governor either holds the operating point, or,
    with the cooldown at zero, moves to the neighbouring table entry and
    restarts the cooldown. *)
Lemma governor_auto (c : Config) (h : R) (r : Refs) (g : Gov) :
  manualOverride c = false ->
  governor c h r = Ok g ->
  g_thermalTriggered g = snd (desiredIndex c r) /\
  ((g_pIndex g = pIndex_ref r /\
    g_slewCooldown g = cooldownAfter h r /\
    g_f g = f_ref r /\ g_V g = V_ref r /\
    (cooldownAfter h r <> 0 \/
     slewTowards (fst (desiredIndex c r)) (pIndex_ref r) = pIndex_ref r))
   \/
   (cooldownAfter h r = 0 /\
    g_pIndex g = slewTowards (fst (desiredIndex c r)) (pIndex_ref r) /\
    g_pIndex g <> pIndex_ref r /\
    g_slewCooldown g = P.slewStepSec /\
    pstate_at (g_pIndex g) = Some (mkPState (g_f g) (g_V g)))).
Proof.
  intros Hm. unfold governor. rewrite Hm.
  destruct (desiredIndex c r) as [d trig]. cbn [fst snd].
  destruct (Req_dec_T (cooldownAfter h r) 0) as [Hz | Hnz].
  - destruct (Z.eqb_spec (slewTowards d (pIndex_ref r)) (pIndex_ref r))
      as [Heq | Hne].
    + intros H. injection H as <-. cbn. split; [reflexivity |].
      left. repeat split; try reflexivity. right. exact Heq.
    + destruct (pstate_at (slewTowards d (pIndex_ref r))) as [[pf pv] |] eqn:Hps;
        [| discriminate].
      intros H. injection H as <-. cbn. split; [reflexivity |].
      right. repeat split; try reflexivity; assumption.
  - intros H. injection H as <-. cbn. split; [reflexivity |].
    left. repeat split; try reflexivity. left. exact Hnz.
Qed.

Lemma slewTowards_step (d cur : Z) :
  slewTowards d cur = cur \/
  slewTowards d cur = (cur - 1)%Z \/
  slewTowards d cur = (cur + 1)%Z.
Proof.
  unfold slewTowards.
  destruct (d <? cur)%Z; [right; left; reflexivity |].
  destruct (d >? cur)%Z; [right; right; reflexivity | left; reflexivity].
Qed.

Lemma slewTowards_range (d cur : Z) :
  (0 <= d <= 6)%Z -> (0 <= cur <= 6)%Z -> (0 <= slewTowards d cur <= 6)%Z.
Proof.
  intros Hd Hc. unfold slewTowards.
  destruct (Z.ltb_spec d cur); [lia |].
  destruct (Z.gtb_spec d cur); lia.
Qed.

Lemma desiredIndex_range (c : Config) (r : Refs) :
  (0 <= pIndex_ref r <= 6)%Z -> (0 <= fst (desiredIndex c r) <= 6)%Z.
Proof.
  intros Hc. pose proof (targetPIndex_range c) as Ht.
  unfold desiredIndex. rewrite pstates_length_7.
  destruct (Rge_dec (T_ref r) (thermalLimit c));
    [| destruct (Rgt_dec (T_ref r) (thermalLimit c - HYST))];
    destruct (Rlt_dec (battPctOf c (EWh_ref r)) 20); cbn [fst]; lia.
Qed.

(** From an index inside the table the governor never reads outside it. *)
Lemma governor_total (c : Config) (h : R) (r : Refs) :
  (0 <= pIndex_ref r <= 6)%Z ->
  exists g, governor c h r = Ok g /\ (0 <= g_pIndex g <= 6)%Z.
Proof.
  intros Hc. destruct (manualOverride c) eqn:Hm.
  - rewrite governor_manual by exact Hm. eexists. split; [reflexivity | exact Hc].
  - pose proof (desiredIndex_range c r Hc) as Hd.
    unfold governor. rewrite Hm.
    destruct (desiredIndex c r) as [d trig]. cbn [fst] in Hd.
    pose proof (slewTowards_range d (pIndex_ref r) Hd Hc) as Hs.
    destruct (Req_dec_T (cooldownAfter h r) 0) as [Hz | Hnz].
    + destruct (Z.eqb_spec (slewTowards d (pIndex_ref r)) (pIndex_ref r)).
      * eexists. split; [reflexivity | exact Hc].
      * destruct (pstate_at_in_range _ Hs) as [ps Hps]. rewrite Hps.
        eexists. split; [reflexivity | exact Hs].
    + eexists. split; [reflexivity | exact Hc].
Qed.

Lemma substep_total (c : Config) (h : R) (le : option EndReason) (r : Refs) :
  (0 <= pIndex_ref r <= 6)%Z ->
  exists out, substep c h le r = Ok out /\
              (0 <= pIndex_ref (so_refs out) <= 6)%Z.
Proof.
  intros Hc. destruct (governor_total c h r Hc) as [g [Hg Hr]].
  exists (afterGovernor c h le r g). unfold substep. rewrite Hg.
  split; [reflexivity | exact Hr].
Qed.

(** For a goal [exists out, substep c h le r = Ok out /\ _] from a state
    inside the table: run the sub-step and replace [out] by what the loop
    body builds from the governor's result [g]. *)
Tactic Notation "run_substep" constr(Hi) "as" ident(g) :=
  match goal with
  | |- exists out, substep ?c ?h ?le ?r = Ok out /\ _ =>
      let out := fresh "out" in
      let Hout := fresh "Hout" in
      destruct (substep_total c h le r Hi) as [out [Hout _]];
      exists out; split; [exact Hout |];
      apply substep_inv in Hout as [g [_ ->]]
  end.

(** ** The end reason of a sub-step *)

(** The three assignments to [localEnd] read backwards: the last one whose
    condition holds is the one that stays. *)
Lemma endAfter_cases (c : Config) (le : option EndReason) (rem ewh acc : R) :
  (acc >= Rmax 1 (overheatGrace c) -> endAfter c le rem ewh acc = Some overheat) /\
  (~ acc >= Rmax 1 (overheatGrace c) -> ewh >= batteryWh c ->
   endAfter c le rem ewh acc = Some battery) /\
  (~ acc >= Rmax 1 (overheatGrace c) -> ~ ewh >= batteryWh c -> rem <= 0 ->
   endAfter c le rem ewh acc = Some completed) /\
  (~ acc >= Rmax 1 (overheatGrace c) -> ~ ewh >= batteryWh c -> ~ rem <= 0 ->
   endAfter c le rem ewh acc = le).
Proof.
  unfold endAfter.
  destruct (Rge_dec acc (Rmax 1 (overheatGrace c)));
    destruct (Rge_dec ewh (batteryWh c));
    destruct (Rle_dec rem 0); repeat split; intros; tauto.
Qed.

(** A sub-step that starts without an end reason ends without one or with
    one of the three terminal reasons. *)
Lemma endAfter_terminal (c : Config) (rem ewh acc : R) (e : EndReason) :
  endAfter c None rem ewh acc = Some e ->
  e = completed \/ e = battery \/ e = overheat.
Proof.
  unfold endAfter.
  destruct (Rge_dec acc (Rmax 1 (overheatGrace c)));
    destruct (Rge_dec ewh (batteryWh c));
    destruct (Rle_dec rem 0); intros H; inversion H; tauto.
Qed.

(** ** The [while] loop *)

Lemma while_loop_exit (n : nat) (c : Config) (er : EndReason) (l : Loop) :
  loopCond er l = false -> while_loop n c er l = Ok l.
Proof. intros H. destruct n; simpl; rewrite H; reflexivity. Qed.

Lemma while_loop_iter (n : nat) (c : Config) (er : EndReason) (l : Loop) :
  loopCond er l = true ->
  while_loop (S n) c er l = bind (loopBody c l) (while_loop n c er).
Proof. intros H. simpl. rewrite H. reflexivity. Qed.

Lemma loopCond_true (er : EndReason) (l : Loop) :
  loopCond er l = true ->
  0 < vtime l /\ coalesce (localEnd l) er = running.
Proof.
  unfold loopCond. intros H. apply andb_true_iff in H as [Hv He].
  split.
  - destruct (Rgt_dec (vtime l) 0); [lra | discriminate].
  - destruct (coalesce (localEnd l) er); try discriminate. reflexivity.
Qed.

Lemma loopCond_ended (er : EndReason) (l : Loop) (e : EndReason) :
  localEnd l = Some e -> e <> running -> loopCond er l = false.
Proof.
  intros Hl He. unfold loopCond. rewrite Hl. cbn [coalesce].
  destruct e; try (exfalso; apply He; reflexivity);
    apply andb_false_r.
Qed.

(** The size of every sub-step the loop executes is positive and at most [P.dt]. *)
Lemma loop_step_size (er : EndReason) (l : Loop) :
  loopCond er l = true -> 0 < Rmin P.dt (vtime l) <= P.dt.
Proof.
  intros H. apply loopCond_true in H as [Hv _].
  unfold P.dt, Rmin. destruct (Rle_dec 0.25 (vtime l)); lra.
Qed.

Lemma loopBody_inv (c : Config) (l l' : Loop) :
  loopBody c l = Ok l' ->
  exists out,
    substep c (Rmin P.dt (vtime l)) (localEnd l) (l_refs l) = Ok out /\
    l' = {| vtime := vtime l - Rmin P.dt (vtime l);
            localEnd := so_end out;
            localThrottling := so_throttling out;
            newPoints := newPoints l ++ [so_point out];
            l_remainingGI := so_remainingGI out;
            l_refs := so_refs out |}.
Proof.
  unfold loopBody, bind.
  destruct (substep c (Rmin P.dt (vtime l)) (localEnd l) (l_refs l))
    as [out | |]; try discriminate.
  intros H. injection H as <-. exists out. split; reflexivity.
Qed.

(** With [n] iterations allowed and at most [n] quarter seconds requested,
    the loop leaves by its own condition. *)
Lemma while_loop_total (n : nat) (c : Config) (er : EndReason) (l : Loop) :
  vtime l <= P.dt * INR n ->
  (0 <= pIndex_ref (l_refs l) <= 6)%Z ->
  exists l', while_loop n c er l = Ok l' /\
             (0 <= pIndex_ref (l_refs l') <= 6)%Z.
Proof.
  revert l. induction n as [| n IH]; intros l Hv Hi.
  - exists l. split; [| exact Hi]. apply while_loop_exit.
    unfold loopCond. simpl in Hv.
    destruct (Rgt_dec (vtime l) 0); [unfold P.dt in Hv; lra | reflexivity].
  - destruct (loopCond er l) eqn:Hc.
    + rewrite while_loop_iter by exact Hc.
      destruct (substep_total c (Rmin P.dt (vtime l)) (localEnd l) (l_refs l) Hi)
        as [out [Hout Hr]].
      unfold loopBody. rewrite Hout. cbn [bind].
      apply IH; cbn [vtime l_refs]; [| exact Hr].
      rewrite S_INR in Hv. unfold P.dt in *.
      apply loopCond_true in Hc as [Hpos _].
      unfold Rmin. destruct (Rle_dec 0.25 (vtime l)).
      * lra.
      * pose proof (pos_INR n). nra.
    + exists l. split; [apply while_loop_exit; exact Hc | exact Hi].
Qed.

(** The interval callback always returns from a state inside the table. *)
Lemma tick_total (c : Config) (e : Engine) :
  (0 <= pIndex_ref (refs e) <= 6)%Z ->
  exists e', tick c e = Ok e' /\ (0 <= pIndex_ref (refs e') <= 6)%Z.
Proof.
  intros Hi. unfold tick. cbv zeta.
  destruct (while_loop_total tickFuel c (endReason (sim e)) (startLoop c e))
    as [l' [Hl Hr]].
  - unfold startLoop. cbn [vtime]. unfold tickMs, maxSpeed, JS.clamp, P.dt, tickFuel, Rmax, Rmin.
    simpl INR.
    destruct (Rle_dec 50 (speed c));
      match goal with |- context [Rle_dec 1 ?x] => destruct (Rle_dec 1 x) end;
      lra.
  - exact Hi.
  - rewrite Hl. cbn [bind]. eexists. split; [reflexivity | exact Hr].
Qed.

Lemma resetSim_total (c : Config) :
  exists e, resetSim c = Ok e /\ pIndex_ref (refs e) = 2%Z.
Proof. eexists. split; reflexivity. Qed.

Lemma resetSim_fresh (c : Config) :
  resetSim c = Ok {| refs := freshRefs c; sim := freshSim c |}.
Proof. reflexivity. Qed.

Lemma targetPIndex_memory_bound (c : Config) :
  workloadMix c = 0 -> targetPIndex c = 6%Z.
Proof.
  intros Hm. unfold targetPIndex. rewrite pstates_length_7, Hm.
  rewrite (Math_round_eval _ 6); [reflexivity |].
  replace (7 - 1)%Z with 6%Z by reflexivity. lra.
Qed.

Lemma targetPIndex_mix_09 (c : Config) :
  workloadMix c = 0.9 -> targetPIndex c = 1%Z.
Proof.
  intros Hm. unfold targetPIndex. rewrite pstates_length_7, Hm.
  rewrite (Math_round_eval _ 1); [reflexivity |].
  replace (7 - 1)%Z with 6%Z by reflexivity. lra.
Qed.

(** Every state of a run has its index inside the table, so no sub-step of
    a run reads outside it. *)
Lemma reachable_in_range (r : Refs) :
  reachable r -> (0 <= pIndex_ref r <= 6)%Z.
Proof.
  induction 1 as [c | c h le r out _ IH Hout].
  - cbn. lia.
  - destruct (substep_total c h le r IH) as [out' [Hout' Hr]].
    rewrite Hout in Hout'. injection Hout' as <-. exact Hr.
Qed.

(** The loop enters its body without a local end reason whenever it started
    without one. *)
Lemma loop_reenters_without_end (c : Config) (er : EndReason) (l l' : Loop) :
  localEnd l = None ->
  loopBody c l = Ok l' ->
  loopCond er l' = true ->
  localEnd l' = None.
Proof.
  intros Hnone Hbody Hc.
  apply loopBody_inv in Hbody as [out [Hout ->]].
  apply loopCond_true in Hc as [_ Hco]. cbn [localEnd] in *.
  rewrite Hnone in Hout. apply substep_inv in Hout as [g [_ ->]].
  cbn [so_end afterGovernor] in *.
  match goal with
  | |- endAfter c None ?rem ?ewh ?acc = None =>
      destruct (endAfter c None rem ewh acc) as [x |] eqn:Hx; [| reflexivity];
      destruct (endAfter_terminal c rem ewh acc x Hx) as [E | [E | E]];
      subst x; cbn in Hco; discriminate
  end.
Qed.

(** * The claims *)

(** C10.  [resetSim] seeds the governor at table index 2, the third P-state
    (2.2 GHz, 0.92 V), with the slew cooldown at zero, whatever the knobs
    are; the target index derived from the workload mix plays no part in
    it, so a run can start four table steps away from its automatic target
    (mix 0 has target index 6). *)
Theorem C10_reset_seeds_third_pstate :
  (forall c : Config,
     exists e, resetSim c = Ok e /\
       pIndex_ref (refs e) = 2%Z /\
       pstate_at (pIndex_ref (refs e)) = Some (mkPState 2.2 0.92) /\
       f_ref (refs e) = 2.2 /\ V_ref (refs e) = 0.92 /\
       slewCooldown_ref (refs e) = 0) /\
  (exists c e, resetSim c = Ok e /\
     targetPIndex c = 6%Z /\ pIndex_ref (refs e) = 2%Z /\
     f_ref (refs e) = 2.2 /\ V_ref (refs e) = 0.92).
Proof.
  split.
  - intros c. exists {| refs := freshRefs c; sim := freshSim c |}.
    repeat split; reflexivity.
  - exists memoryBoundConfig.
    exists {| refs := freshRefs memoryBoundConfig;
              sim := freshSim memoryBoundConfig |}.
    repeat split; try reflexivity.
    apply targetPIndex_memory_bound. reflexivity.
Qed.

(** C2.  In every sub-step of size [h > 0] the new temperature is
    [T + (Tss - T) * (1 - exp (- h / tau))] with [Tss = ambient + P * Rth],
    where [P] is the total power of this very sub-step (the one whose
    three-decimal rendering the sample records) and [tau] is the configured
    time constant floored at 8e-6; the equation holds for every [h]. *)
Theorem C2_thermal_update_exact (c : Config) (h : R) (le : option EndReason)
    (r : Refs) :
  0 < h ->
  (0 <= pIndex_ref r <= 6)%Z ->
  exists out, substep c h le r = Ok out /\
    let p := Ptot c (f_ref (so_refs out)) (V_ref (so_refs out)) (T_ref r) in
    let T_ss := ambient c + p * Rth in
    T_ref (so_refs out)
      = T_ref r + (T_ss - T_ref r) * (1 - exp (- h / tau c)) /\
    tau c = Rmax 8e-6 (tauSec c) /\ 0 < tau c /\
    power (so_point out) = JS.toFixed 3 p.
Proof.
  intros Hh Hi. run_substep Hi as g. cbn.
  repeat split; [apply tau_floor | apply tau_pos].
Qed.

(** The first quarter-second sub-step after a reset with the default knobs. *)
Lemma C2_thermal_update_exact_witness :
  0 < 0.25 /\
  (0 <= pIndex_ref (freshRefs defaultConfig) <= 6)%Z /\
  exists out,
    substep defaultConfig 0.25 None (freshRefs defaultConfig) = Ok out /\
    let p := Ptot defaultConfig (f_ref (so_refs out)) (V_ref (so_refs out))
                  (T_ref (freshRefs defaultConfig)) in
    let T_ss := ambient defaultConfig + p * Rth in
    T_ref (so_refs out)
      = T_ref (freshRefs defaultConfig)
        + (T_ss - T_ref (freshRefs defaultConfig))
          * (1 - exp (- (0.25) / tau defaultConfig)) /\
    tau defaultConfig = Rmax 8e-6 (tauSec defaultConfig) /\
    0 < tau defaultConfig /\
    power (so_point out) = JS.toFixed 3 p.
Proof.
  assert (Hh : 0 < 0.25) by lra.
  assert (Hi : (0 <= pIndex_ref (freshRefs defaultConfig) <= 6)%Z)
    by (cbn; lia).
  split; [exact Hh |]. split; [exact Hi |].
  exact (C2_thermal_update_exact defaultConfig 0.25 None
           (freshRefs defaultConfig) Hh Hi).
Defined.

(** C8.  In every sub-step of size [h > 0] (the floored [tau] is positive)
    the new temperature lies between the previous temperature and
    [Tss = ambient + P * Rth], both ends included, on whichever side the
    previous temperature was.  It really approaches the target: unless the
    temperature already equals [Tss] (where it stays), the new temperature
    lies strictly between the two and is strictly closer to [Tss] than the
    previous one, the distance shrinking by the factor [exp (- h / tau)]. *)
Theorem C8_temperature_never_overshoots (c : Config) (h : R)
    (le : option EndReason) (r : Refs) :
  0 < h ->
  (0 <= pIndex_ref r <= 6)%Z ->
  exists out, substep c h le r = Ok out /\
    let p := Ptot c (f_ref (so_refs out)) (V_ref (so_refs out)) (T_ref r) in
    let T_ss := ambient c + p * Rth in
    0 < tau c /\
    Rmin (T_ref r) T_ss <= T_ref (so_refs out) <= Rmax (T_ref r) T_ss /\
    (T_ref r <= T_ss -> T_ref r <= T_ref (so_refs out) <= T_ss) /\
    (T_ss <= T_ref r -> T_ss <= T_ref (so_refs out) <= T_ref r) /\
    Rabs (T_ss - T_ref (so_refs out)) <= Rabs (T_ss - T_ref r) /\
    (T_ref r < T_ss -> T_ref r < T_ref (so_refs out) < T_ss) /\
    (T_ss < T_ref r -> T_ss < T_ref (so_refs out) < T_ref r) /\
    (T_ref r = T_ss -> T_ref (so_refs out) = T_ref r) /\
    (T_ref r <> T_ss ->
     Rabs (T_ss - T_ref (so_refs out)) < Rabs (T_ss - T_ref r)) /\
    T_ss - T_ref (so_refs out) = (T_ss - T_ref r) * exp (- h / tau c) /\
    0 < exp (- h / tau c) < 1.
Proof.
  intros Hh Hi. run_substep Hi as g. cbn.
  set (p := Ptot c (g_f g) (g_V g) (T_ref r)).
  pose proof (thermalStep_between c h p (T_ref r) Hh) as Hb.
  pose proof (thermalStep_gap c h p (T_ref r)) as Hgap.
  destruct (decay_bounds c h Hh) as [Hlo Hhi].
  unfold Tss in *.
  set (s := ambient c + p * Rth) in *.
  set (n := thermalStep c h p (T_ref r)) in *.
  set (e := exp (- h / tau c)) in *.
  split; [apply tau_pos |]. split; [exact Hb |].
  split; [intros Hle; rewrite Rmin_left, Rmax_right in Hb by lra; exact Hb |].
  split; [intros Hle; rewrite Rmin_right, Rmax_left in Hb by lra; exact Hb |].
  assert (Hdist : Rabs (s - n) = Rabs (s - T_ref r) * e).
  { replace (s - n) with ((s - T_ref r) * e) by lra.
    rewrite Rabs_mult, (Rabs_right e) by lra. reflexivity. }
  split; [rewrite Hdist; pose proof (Rabs_pos (s - T_ref r)); nra |].
  split; [intros Hlt; nra |].
  split; [intros Hlt; nra |].
  split; [intros Heq; nra |].
  split.
  - intros Hne. rewrite Hdist.
    assert (Hpos : 0 < Rabs (s - T_ref r)) by (apply Rabs_pos_lt; lra).
    nra.
  - split; [lra | split; assumption].
Qed.

Lemma clamp_inside (x lo hi : R) : lo <= x <= hi -> JS.clamp x lo hi = x.
Proof.
  intros [Hl Hh]. unfold JS.clamp.
  rewrite (Rmin_right hi x) by exact Hh. apply Rmax_right. exact Hl.
Qed.

Lemma clamp_cases (x lo hi : R) :
  lo <= hi ->
  lo <= JS.clamp x lo hi <= hi /\
  (JS.clamp x lo hi = lo \/ JS.clamp x lo hi = hi \/ JS.clamp x lo hi = x).
Proof.
  intros Hlh. unfold JS.clamp, Rmax, Rmin.
  destruct (Rle_dec hi x); destruct (Rle_dec lo hi);
    try destruct (Rle_dec lo x); split; try lra; tauto.
Qed.

(** The first sub-step after a reset with the override ticked, Vdd at 0.80 V
    and the chip at 25 degrees draws 2.20512 W. *)
Lemma manual_first_power :
  Ptot manualConfig (JS.clamp (freqGHz manualConfig) P.fMin P.fMax)
       (JS.clamp (vdd manualConfig) P.vMin P.vMax)
       (T_ref (freshRefs manualConfig)) = 2.20512.
Proof.
  cbn [freqGHz vdd manualConfig T_ref freshRefs ambient].
  unfold P.fMin, P.fMax, P.vMin, P.vMax.
  rewrite !clamp_inside by lra.
  unfold Ptot, Pdyn, Pleak, alpha, P.Pleak0, P.kV, P.gamma.
  cbn [ceffNF workloadMix manualConfig].
  replace (2.0 * (0.8 - 0.8)) with 0 by lra.
  replace (0.04 * (25 - 25)) with 0 by lra.
  rewrite exp_0. lra.
Qed.

(** The claim of C3 read literally fails: the point pushed by the first
    sub-step after a reset (override ticked, 2.2 GHz, 0.80 V, 25 degrees)
    records 2.205 W while [Pdyn + Pleak] is 2.20512 W. *)
Lemma C3_recorded_power_is_rounded :
  exists out,
    substep manualConfig 0.25 None (freshRefs manualConfig) = Ok out /\
    Pdyn manualConfig (f_ref (so_refs out)) (V_ref (so_refs out))
      + Pleak (V_ref (so_refs out)) (T_ref (freshRefs manualConfig))
      = 2.20512 /\
    power (so_point out) = 2.205 /\
    power (so_point out)
      <> Pdyn manualConfig (f_ref (so_refs out)) (V_ref (so_refs out))
         + Pleak (V_ref (so_refs out)) (T_ref (freshRefs manualConfig)).
Proof.
  eexists. split.
  - unfold substep. rewrite governor_manual by reflexivity. reflexivity.
  - cbn [so_refs so_point afterGovernor f_ref V_ref power g_f g_V].
    pose proof manual_first_power as Hp. unfold Ptot in Hp.
    assert (Hr : JS.toFixed 3 2.20512 = 2.205).
    { rewrite (toFixed_eval 3 2.20512 2205); simpl; lra. }
    unfold Ptot. rewrite Hp, Hr. repeat split; lra.
Qed.

(** C3 (amended).  In every sub-step the power recorded in the point is
    [Pdyn + Pleak] rendered with three decimals ([toFixed(3)]), at most
    0.0005 W away from it, where [Pdyn = Ceff * V^2 * f * alpha] and
    [Pleak = Pleak0 * exp (kV * (V - 0.8)) * exp (gamma * (T - 25))] are
    taken at the operating point active in this sub-step and at the
    temperature from before its thermal update; the thermal and the energy
    update use the unrounded sum. *)
Theorem C3_recorded_power (c : Config) (h : R) (le : option EndReason)
    (r : Refs) :
  (0 <= pIndex_ref r <= 6)%Z ->
  exists out, substep c h le r = Ok out /\
    let fq := f_ref (so_refs out) in
    let vv := V_ref (so_refs out) in
    let P_dyn := ceffNF c * vv * vv * fq * alpha c in
    let P_leak :=
      P.Pleak0 * exp (P.kV * (vv - 0.8)) * exp (P.gamma * (T_ref r - 25)) in
    power (so_point out) = JS.toFixed 3 (P_dyn + P_leak) /\
    Rabs (power (so_point out) - (P_dyn + P_leak)) <= 0.0005 /\
    T_ref (so_refs out) = thermalStep c h (P_dyn + P_leak) (T_ref r) /\
    EWh_ref (so_refs out) = EWh_ref r + (P_dyn + P_leak) * h / 3600.
Proof.
  intros Hi. run_substep Hi as g. cbn.
  unfold Ptot, Pdyn, Pleak.
  repeat split; try reflexivity.
  eapply Rle_trans; [apply toFixed_error |]. simpl. lra.
Qed.

(** The first sub-step after a reset with the override ticked. *)
Lemma C3_recorded_power_witness :
  (0 <= pIndex_ref (freshRefs manualConfig) <= 6)%Z /\
  exists out,
    substep manualConfig 0.25 None (freshRefs manualConfig) = Ok out /\
    let fq := f_ref (so_refs out) in
    let vv := V_ref (so_refs out) in
    let P_dyn := ceffNF manualConfig * vv * vv * fq * alpha manualConfig in
    let P_leak :=
      P.Pleak0 * exp (P.kV * (vv - 0.8))
      * exp (P.gamma * (T_ref (freshRefs manualConfig) - 25)) in
    power (so_point out) = JS.toFixed 3 (P_dyn + P_leak) /\
    Rabs (power (so_point out) - (P_dyn + P_leak)) <= 0.0005 /\
    T_ref (so_refs out)
      = thermalStep manualConfig 0.25 (P_dyn + P_leak)
          (T_ref (freshRefs manualConfig)) /\
    EWh_ref (so_refs out)
      = EWh_ref (freshRefs manualConfig) + (P_dyn + P_leak) * 0.25 / 3600.
Proof.
  assert (Hi : (0 <= pIndex_ref (freshRefs manualConfig) <= 6)%Z)
    by (cbn; lia).
  split; [exact Hi |].
  exact (C3_recorded_power manualConfig 0.25 None (freshRefs manualConfig) Hi).
Defined.

(** C5.  In every sub-step the overheat accumulator grows by [h] when the
    temperature (after this sub-step's thermal update) exceeds
    [thermalLimit + 5], and otherwise drops by [2 * h], not below 0; the
    sub-step ends the run with reason [overheat] exactly when the
    accumulator is at least [max 1 overheatGrace], a threshold that is at
    least one second whatever the configured grace is. *)
Theorem C5_overheat_monitor (c : Config) (h : R) (r : Refs) :
  (0 <= pIndex_ref r <= 6)%Z ->
  exists out, substep c h None r = Ok out /\
    let Tnew := T_ref (so_refs out) in
    let acc := overheatAccum_ref r in
    let acc' := overheatAccum_ref (so_refs out) in
    (Tnew > thermalLimit c + 5 -> acc' = acc + h) /\
    (~ Tnew > thermalLimit c + 5 -> acc' = Rmax 0 (acc - 2 * h) /\ 0 <= acc') /\
    (so_end out = Some overheat <-> acc' >= Rmax 1 (overheatGrace c)) /\
    1 <= Rmax 1 (overheatGrace c).
Proof.
  intros Hi. run_substep Hi as g. cbn.
  unfold overheatStep, OVERHEAT_MARGIN.
  set (Tn := thermalStep c h (Ptot c (g_f g) (g_V g) (T_ref r)) (T_ref r)).
  split; [| split; [| split]].
  - intros Hhot. destruct (Rgt_dec Tn (thermalLimit c + 5)); [reflexivity | tauto].
  - intros Hcool. destruct (Rgt_dec Tn (thermalLimit c + 5)); [tauto |].
    split; [reflexivity | apply Rmax_l].
  - match goal with
    | |- endAfter c None ?rem ?ewh ?acc = _ <-> _ =>
        destruct (endAfter_cases c None rem ewh acc) as [H1 [H2 [H3 H4]]];
        destruct (Rge_dec acc (Rmax 1 (overheatGrace c))) as [Hge | Hlt];
        [ split; [intros _; exact Hge | intros _; exact (H1 Hge)] |];
        split; [| intros Hge; contradiction];
        intros Hov;
        destruct (endAfter_terminal c rem ewh acc overheat Hov) as [E | [E | E]];
        try discriminate;
        destruct (Rge_dec ewh (batteryWh c)) as [Hb | Hb];
        [ rewrite (H2 Hlt Hb) in Hov; discriminate |];
        destruct (Rle_dec rem 0) as [Hr | Hr];
        [ rewrite (H3 Hlt Hb Hr) in Hov; discriminate
        | rewrite (H4 Hlt Hb Hr) in Hov; discriminate ]
    end.
  - apply Rmax_l.
Qed.

Lemma clamp_two_decimals (x lo hi : R) (kl kh : Z) :
  lo = IZR kl / 100 -> hi = IZR kh / 100 -> lo <= hi ->
  (exists k, x = IZR k / 100) ->
  exists k, JS.clamp x lo hi = IZR k / 100.
Proof.
  intros Hl Hh Hlh [k Hk].
  destruct (clamp_cases x lo hi Hlh) as [_ [E | [E | E]]]; rewrite E.
  - exists kl. exact Hl.
  - exists kh. exact Hh.
  - exists k. exact Hk.
Qed.

(** A two-decimal setting clamped to two-decimal bounds of moderate size is
    shown unchanged by [toFixed(2)]. *)
Lemma toFixed2_clamp (x lo hi : R) (kl kh : Z) :
  lo = IZR kl / 100 -> hi = IZR kh / 100 -> lo <= hi ->
  -1e21 < lo -> hi < 1e21 ->
  (exists k, x = IZR k / 100) ->
  JS.toFixed 2 (JS.clamp x lo hi) = JS.clamp x lo hi.
Proof.
  intros Hl Hh Hlh Hlo Hhi Hx.
  destruct (clamp_two_decimals x lo hi kl kh Hl Hh Hlh Hx) as [k Hk].
  destruct (clamp_cases x lo hi Hlh) as [[Hb1 Hb2] _].
  rewrite Hk in *. apply toFixed2_fixpoint.
  apply Rabs_def1; lra.
Qed.

(** C6.  In every sub-step executed with the manual override on, whatever
    the temperature, the energy drawn and the rest of the state are, the
    active operating point is exactly
    [(clamp freqGHz fMin fMax, clamp vdd vMin vMax)], and the P-state index
    and the slew cooldown are left as they were.  The point shows the pair
    through [toFixed(2)], which changes nothing for settings with at most
    two decimals, as the two sliders (steps 0.05 and 0.01) deliver them. *)
Theorem C6_manual_override (c : Config) (h : R) (le : option EndReason)
    (r : Refs) :
  manualOverride c = true ->
  exists out, substep c h le r = Ok out /\
    f_ref (so_refs out) = JS.clamp (freqGHz c) P.fMin P.fMax /\
    V_ref (so_refs out) = JS.clamp (vdd c) P.vMin P.vMax /\
    pIndex_ref (so_refs out) = pIndex_ref r /\
    slewCooldown_ref (so_refs out) = slewCooldown_ref r /\
    f (so_point out) = JS.toFixed 2 (JS.clamp (freqGHz c) P.fMin P.fMax) /\
    V (so_point out) = JS.toFixed 2 (JS.clamp (vdd c) P.vMin P.vMax) /\
    ((exists k, freqGHz c = IZR k / 100) ->
     f (so_point out) = JS.clamp (freqGHz c) P.fMin P.fMax) /\
    ((exists k, vdd c = IZR k / 100) ->
     V (so_point out) = JS.clamp (vdd c) P.vMin P.vMax).
Proof.
  intros Hm. eexists. split.
  - unfold substep. rewrite governor_manual by exact Hm. reflexivity.
  - cbn. repeat split; try reflexivity.
    + intros Hk. apply (toFixed2_clamp _ _ _ 60 350); try exact Hk;
        unfold P.fMin, P.fMax; lra.
    + intros Hk. apply (toFixed2_clamp _ _ _ 60 110); try exact Hk;
        unfold P.vMin, P.vMax; lra.
Qed.

(** Override ticked while the state sits at the last table entry, at the
    thermal limit. *)
Lemma C6_manual_override_witness :
  manualOverride manualConfig = true /\
  exists out,
    substep manualConfig 0.25 None bottomRefs = Ok out /\
    f_ref (so_refs out) = JS.clamp (freqGHz manualConfig) P.fMin P.fMax /\
    V_ref (so_refs out) = JS.clamp (vdd manualConfig) P.vMin P.vMax /\
    pIndex_ref (so_refs out) = pIndex_ref bottomRefs /\
    slewCooldown_ref (so_refs out) = slewCooldown_ref bottomRefs /\
    f (so_point out)
      = JS.toFixed 2 (JS.clamp (freqGHz manualConfig) P.fMin P.fMax) /\
    V (so_point out)
      = JS.toFixed 2 (JS.clamp (vdd manualConfig) P.vMin P.vMax) /\
    ((exists k, freqGHz manualConfig = IZR k / 100) ->
     f (so_point out) = JS.clamp (freqGHz manualConfig) P.fMin P.fMax) /\
    ((exists k, vdd manualConfig = IZR k / 100) ->
     V (so_point out) = JS.clamp (vdd manualConfig) P.vMin P.vMax).
Proof.
  split; [reflexivity |].
  exact (C6_manual_override manualConfig 0.25 None bottomRefs eq_refl).
Defined.

(** ** Remaining workload *)

Lemma perfGIPS_nonneg (c : Config) (fq : R) : 0 <= perfGIPS c fq.
Proof. unfold perfGIPS. apply Rmax_l. Qed.

(** Along any run of sub-steps of non-negative size that starts with a
    non-negative pool, the pool stays between 0 and where it started. *)
Lemma substeps_remaining (steps : list (Config * R)) (r r' : Refs) :
  Forall (fun s => 0 <= snd s) steps ->
  0 <= remainingGI_ref r ->
  substeps steps r = Ok r' ->
  0 <= remainingGI_ref r' <= remainingGI_ref r.
Proof.
  revert r. induction steps as [| [c h] rest IH]; intros r Hall Hr Hrun.
  - simpl in Hrun. injection Hrun as <-. lra.
  - inversion Hall as [| ? ? Hh Hrest]; subst. cbn [snd] in Hh.
    simpl in Hrun. unfold bind in Hrun.
    destruct (substep c h None r) as [out | |] eqn:Hout; try discriminate.
    apply substep_inv in Hout as [g [_ ->]].
    assert (Hstep : 0 <= remainingGI_ref (so_refs (afterGovernor c h None r g))
                    <= remainingGI_ref r).
    { cbn. pose proof (perfGIPS_nonneg c (g_f g)) as Hp.
      unfold Rmax. destruct (Rle_dec 0 (remainingGI_ref r - perfGIPS c (g_f g) * h));
        nra. }
    specialize (IH _ Hrest (proj1 Hstep) Hrun). lra.
Qed.

(** The claim of C7 read literally fails: with -5 typed into the workload
    field, [resetSim] leaves a remaining workload of -5 (negative), and the
    first sub-step raises it to 0. *)
Lemma C7_negative_workload_rises :
  exists e out,
    resetSim negativeWorkConfig = Ok e /\
    remainingGI_ref (refs e) = -5 /\
    substep negativeWorkConfig 0.25 None (refs e) = Ok out /\
    remainingGI_ref (so_refs out) = 0 /\
    remainingGI_ref (refs e) < remainingGI_ref (so_refs out).
Proof.
  assert (Hi : (0 <= pIndex_ref (freshRefs negativeWorkConfig) <= 6)%Z)
    by (cbn; lia).
  destruct (substep_total negativeWorkConfig 0.25 None _ Hi) as [out [Hout _]].
  exists {| refs := freshRefs negativeWorkConfig;
            sim := freshSim negativeWorkConfig |}, out.
  split; [reflexivity |]. split; [reflexivity |]. split; [exact Hout |].
  apply substep_inv in Hout as [g [_ ->]]. cbn.
  pose proof (perfGIPS_nonneg negativeWorkConfig (g_f g)) as Hp.
  assert (H0 : Rmax 0 (-5 - perfGIPS negativeWorkConfig (g_f g) * 0.25) = 0)
    by (apply Rmax_left; nra).
  rewrite H0. split; [reflexivity | lra].
Qed.

(** C7 (amended).  Every sub-step (of size [h >= 0], as all sub-steps of the
    loop are) subtracts the instruction rate [max 0 (ipc * f)] times [h]
    from the remaining pool and clamps the result at 0: the remaining
    workload is never negative after a sub-step, and it does not increase
    when it was non-negative before, as it is after a reset with a
    non-negative configured workload and after every earlier sub-step. *)
Theorem C7_remaining_workload (c : Config) (h : R) (le : option EndReason)
    (r : Refs) :
  0 <= h ->
  (0 <= pIndex_ref r <= 6)%Z ->
  exists out, substep c h le r = Ok out /\
    let rate := Rmax 0 (ipc c * f_ref (so_refs out)) in
    remainingGI_ref (so_refs out) = Rmax 0 (remainingGI_ref r - rate * h) /\
    0 <= remainingGI_ref (so_refs out) /\
    (0 <= remainingGI_ref r ->
     remainingGI_ref (so_refs out) <= remainingGI_ref r).
Proof.
  intros Hh Hi. run_substep Hi as g. cbn.
  pose proof (perfGIPS_nonneg c (g_f g)) as Hp. unfold perfGIPS in *.
  split; [reflexivity |]. split; [apply Rmax_l |].
  intros Hr. unfold Rmax at 1.
  destruct (Rle_dec 0 (remainingGI_ref r - Rmax 0 (ipc c * g_f g) * h)); nra.
Qed.

(** The first sub-step after a reset with the default 1000 billion
    instructions. *)
Lemma C7_remaining_workload_witness :
  0 <= 0.25 /\
  (0 <= pIndex_ref (freshRefs defaultConfig) <= 6)%Z /\
  exists out,
    substep defaultConfig 0.25 None (freshRefs defaultConfig) = Ok out /\
    let rate := Rmax 0 (ipc defaultConfig * f_ref (so_refs out)) in
    remainingGI_ref (so_refs out)
      = Rmax 0 (remainingGI_ref (freshRefs defaultConfig) - rate * 0.25) /\
    0 <= remainingGI_ref (so_refs out) /\
    (0 <= remainingGI_ref (freshRefs defaultConfig) ->
     remainingGI_ref (so_refs out)
       <= remainingGI_ref (freshRefs defaultConfig)).
Proof.
  assert (Hh : 0 <= 0.25) by lra.
  assert (Hi : (0 <= pIndex_ref (freshRefs defaultConfig) <= 6)%Z)
    by (cbn; lia).
  split; [exact Hh |]. split; [exact Hi |].
  exact (C7_remaining_workload defaultConfig 0.25 None
           (freshRefs defaultConfig) Hh Hi).
Defined.

(** ** Throttling at the thermal limit *)

Lemma desiredIndex_hot (c : Config) (r : Refs) :
  T_ref r >= thermalLimit c ->
  snd (desiredIndex c r) = true /\
  (Z.min (pIndex_ref r + 1) 6 <= fst (desiredIndex c r))%Z.
Proof.
  intros Hhot. unfold desiredIndex. rewrite pstates_length_7.
  destruct (Rge_dec (T_ref r) (thermalLimit c)) as [_ | Hn]; [| contradiction].
  destruct (Rlt_dec (battPctOf c (EWh_ref r)) 20); cbn [fst snd];
    split; try reflexivity; lia.
Qed.

(** The claim of C9 read literally fails at the last table entry: with the
    default knobs, index 6 and the temperature exactly at the limit of 42
    degrees, the desired index is 6, not one step further down. *)
Lemma C9_no_step_below_last_entry :
  manualOverride defaultConfig = false /\
  T_ref bottomRefs = thermalLimit defaultConfig /\
  pIndex_ref bottomRefs = 6%Z /\
  fst (desiredIndex defaultConfig bottomRefs) = 6%Z /\
  ~ (pIndex_ref bottomRefs + 1 <= fst (desiredIndex defaultConfig bottomRefs))%Z.
Proof.
  assert (Hd : fst (desiredIndex defaultConfig bottomRefs) = 6%Z).
  { unfold desiredIndex. rewrite pstates_length_7.
    cbn [T_ref EWh_ref pIndex_ref bottomRefs thermalLimit defaultConfig].
    destruct (Rge_dec 42 42) as [_ | Hn]; [| exfalso; apply Hn; lra].
    assert (Hb : battPctOf defaultConfig 0 = 100).
    { unfold battPctOf. cbn [batteryWh defaultConfig].
      rewrite Rmax_right by lra. lra. }
    rewrite Hb.
    destruct (Rlt_dec 100 20) as [Hlt | _]; [lra | reflexivity]. }
  repeat split; try reflexivity; try exact Hd.
  rewrite Hd. cbn. lia.
Qed.

(** C9 (amended).  When a sub-step in automatic mode starts with the
    temperature exactly at the thermal limit, its throttling flag is true,
    the decision is marked thermally triggered, and the desired index is at
    least [min (current + 1) 6] and at most 6: at least one table step
    below the current entry unless the current entry is already the last
    one, where it stays at that entry; with the cooldown at zero the index
    then moves one step down. *)
Theorem C9_throttle_at_limit (c : Config) (h : R) (le : option EndReason)
    (r : Refs) :
  manualOverride c = false ->
  T_ref r = thermalLimit c ->
  (0 <= pIndex_ref r <= 6)%Z ->
  exists out, substep c h le r = Ok out /\
    so_throttling out = true /\
    snd (desiredIndex c r) = true /\
    (Z.min (pIndex_ref r + 1) (pstates_length - 1)
       <= fst (desiredIndex c r))%Z /\
    ((pIndex_ref r < pstates_length - 1)%Z ->
     (pIndex_ref r + 1 <= fst (desiredIndex c r))%Z) /\
    ((pIndex_ref r < pstates_length - 1)%Z -> cooldownAfter h r = 0 ->
     pIndex_ref (so_refs out) = (pIndex_ref r + 1)%Z) /\
    (fst (desiredIndex c r) <= pstates_length - 1)%Z.
Proof.
  intros Hm HT Hi. destruct (substep_total c h le r Hi) as [out [Hout _]].
  exists out. split; [exact Hout |].
  apply substep_inv in Hout as [g [Hg ->]].
  assert (Hhot : T_ref r >= thermalLimit c) by lra.
  destruct (desiredIndex_hot c r Hhot) as [Htrig Hdes].
  destruct (governor_auto c h r g Hm Hg) as [Htt Hmove].
  rewrite pstates_length_7. cbn.
  split; [rewrite Htt, Htrig; reflexivity |].
  split; [exact Htrig |]. split; [exact Hdes |].
  split; [intros Hlt; lia |].
  split; [| pose proof (desiredIndex_range c r Hi); lia].
  intros Hlt Hcd.
  assert (Hs : slewTowards (fst (desiredIndex c r)) (pIndex_ref r)
               = (pIndex_ref r + 1)%Z).
  { unfold slewTowards.
    destruct (Z.ltb_spec (fst (desiredIndex c r)) (pIndex_ref r)); [lia |].
    destruct (Z.gtb_spec (fst (desiredIndex c r)) (pIndex_ref r)); [reflexivity | lia]. }
  destruct Hmove as [[Hsame [_ [_ [_ [Hnz | Hstay]]]]] | [_ [Hidx _]]].
  - contradiction.
  - rewrite Hs in Hstay. lia.
  - rewrite Hidx. exact Hs.
Qed.

(** Index 2 with the temperature exactly at the default limit of 42 degrees. *)
Lemma C9_throttle_at_limit_witness :
  manualOverride defaultConfig = false /\
  T_ref limitRefs = thermalLimit defaultConfig /\
  (0 <= pIndex_ref limitRefs <= 6)%Z /\
  exists out, substep defaultConfig 0.25 None limitRefs = Ok out /\
    so_throttling out = true /\
    snd (desiredIndex defaultConfig limitRefs) = true /\
    (Z.min (pIndex_ref limitRefs + 1) (pstates_length - 1)
       <= fst (desiredIndex defaultConfig limitRefs))%Z /\
    ((pIndex_ref limitRefs < pstates_length - 1)%Z ->
     (pIndex_ref limitRefs + 1 <= fst (desiredIndex defaultConfig limitRefs))%Z) /\
    ((pIndex_ref limitRefs < pstates_length - 1)%Z ->
     cooldownAfter 0.25 limitRefs = 0 ->
     pIndex_ref (so_refs out) = (pIndex_ref limitRefs + 1)%Z) /\
    (fst (desiredIndex defaultConfig limitRefs) <= pstates_length - 1)%Z.
Proof.
  assert (Hi : (0 <= pIndex_ref limitRefs <= 6)%Z) by (cbn; lia).
  split; [reflexivity |]. split; [reflexivity |]. split; [exact Hi |].
  exact (C9_throttle_at_limit defaultConfig 0.25 None limitRefs
           eq_refl eq_refl Hi).
Defined.

(** ** The slew window *)

Lemma cooldownAfter_lower (h : R) (r : Refs) :
  0 <= h -> slewCooldown_ref r - h <= cooldownAfter h r.
Proof.
  intros Hh. unfold cooldownAfter.
  destruct (Rgt_dec (slewCooldown_ref r) 0); [apply Rmax_r | lra].
Qed.

Lemma cooldownAfter_zero (h : R) (r : Refs) :
  0 <= h -> cooldownAfter h r = 0 -> slewCooldown_ref r <= h.
Proof.
  intros Hh. unfold cooldownAfter.
  destruct (Rgt_dec (slewCooldown_ref r) 0) as [Hpos | Hnpos]; [| lra].
  intros Hz. pose proof (Rmax_r 0 (slewCooldown_ref r - h)). lra.
Qed.

(** What one completed sub-step does to the clock, the index and the cooldown. *)
Lemma substep_slew (c : Config) (h : R) (le : option EndReason) (r : Refs)
    (out : StepOut) :
  substep c h le r = Ok out ->
  t_ref (so_refs out) = t_ref r + h /\
  ((pIndex_ref (so_refs out) = pIndex_ref r /\
    f_ref (so_refs out) = (if manualOverride c
                           then JS.clamp (freqGHz c) P.fMin P.fMax
                           else f_ref r) /\
    V_ref (so_refs out) = (if manualOverride c
                           then JS.clamp (vdd c) P.vMin P.vMax
                           else V_ref r) /\
    slewCooldown_ref (so_refs out)
      = (if manualOverride c then slewCooldown_ref r else cooldownAfter h r))
   \/
   (manualOverride c = false /\
    cooldownAfter h r = 0 /\
    pIndex_ref (so_refs out) <> pIndex_ref r /\
    (pIndex_ref (so_refs out) = (pIndex_ref r + 1)%Z \/
     pIndex_ref (so_refs out) = (pIndex_ref r - 1)%Z) /\
    slewCooldown_ref (so_refs out) = P.slewStepSec)).
Proof.
  intros Hout. apply substep_inv in Hout as [g [Hg ->]]. cbn.
  split; [reflexivity |].
  destruct (manualOverride c) eqn:Hm.
  - rewrite governor_manual in Hg by exact Hm. injection Hg as <-. cbn.
    left. repeat split; reflexivity.
  - destruct (governor_auto c h r g Hm Hg)
      as [_ [[Hi [Hcd [Hf [Hv _]]]] | [Hz [Hi [Hne [Hcd _]]]]]].
    + left. repeat split; assumption.
    + right. repeat split; try assumption.
      destruct (slewTowards_step (fst (desiredIndex c r)) (pIndex_ref r))
        as [E | [E | E]]; rewrite <- Hi in E.
      * contradiction.
      * right. exact E.
      * left. exact E.
Qed.

(** Along a run of sub-steps the clock does not go back, and clock plus
    cooldown never falls below a bound it once reached. *)
Lemma substeps_cooldown (steps : list (Config * R)) (r r' : Refs) (bound : R) :
  Forall (fun s => 0 < snd s) steps ->
  substeps steps r = Ok r' ->
  bound <= t_ref r + P.slewStepSec ->
  bound <= t_ref r + slewCooldown_ref r ->
  bound <= t_ref r' + P.slewStepSec /\
  bound <= t_ref r' + slewCooldown_ref r'.
Proof.
  revert r. induction steps as [| [c h] rest IH]; intros r Hall Hrun Ht Hcd.
  - simpl in Hrun. injection Hrun as <-. split; assumption.
  - inversion Hall as [| ? ? Hh Hrest]; subst. cbn [snd] in Hh.
    simpl in Hrun. unfold bind in Hrun.
    destruct (substep c h None r) as [out | |] eqn:Hout; try discriminate.
    destruct (substep_slew c h None r out Hout) as [Htime Hcase].
    apply (IH (so_refs out) Hrest Hrun); [lra |].
    destruct Hcase as [[_ [_ [_ Hc]]] | [_ [_ [_ [_ Hc]]]]].
    + rewrite Hc, Htime. destruct (manualOverride c).
      * lra.
      * pose proof (cooldownAfter_lower h r). lra.
    + rewrite Hc, Htime. lra.
Qed.

(** C4.  Time is read on the simulation clock [t_ref], a change being dated
    by the clock value its sub-step leaves (the time of the point that
    first shows the new operating point).  Within a run of sub-steps, after
    a sub-step that changed the index, no later sub-step changes it before
    the clock has advanced by [slewStepSec = 0.3]; in automatic mode a
    sub-step whose cooldown is still positive after its own deduction
    leaves index and operating point alone, whatever the desired index is;
    and a sub-step that changes the index is an automatic one that moves it
    by exactly one table step and sets the cooldown to [slewStepSec]. *)
Theorem C4_slew_window :
  (forall (c0 : Config) (h0 : R) (r0 : Refs) (o1 : StepOut)
          (mid : list (Config * R)) (r2 : Refs)
          (c1 : Config) (h1 : R) (o3 : StepOut),
     substep c0 h0 None r0 = Ok o1 ->
     pIndex_ref (so_refs o1) <> pIndex_ref r0 ->
     Forall (fun s => 0 < snd s) mid ->
     substeps mid (so_refs o1) = Ok r2 ->
     0 < h1 ->
     substep c1 h1 None r2 = Ok o3 ->
     pIndex_ref (so_refs o3) <> pIndex_ref r2 ->
     t_ref (so_refs o1) + P.slewStepSec <= t_ref (so_refs o3)) /\
  (forall (c : Config) (h : R) (le : option EndReason) (r : Refs)
          (out : StepOut),
     manualOverride c = false ->
     substep c h le r = Ok out ->
     cooldownAfter h r > 0 ->
     pIndex_ref (so_refs out) = pIndex_ref r /\
     f_ref (so_refs out) = f_ref r /\ V_ref (so_refs out) = V_ref r) /\
  (forall (c : Config) (h : R) (le : option EndReason) (r : Refs)
          (out : StepOut),
     substep c h le r = Ok out ->
     pIndex_ref (so_refs out) <> pIndex_ref r ->
     manualOverride c = false /\
     (pIndex_ref (so_refs out) = (pIndex_ref r + 1)%Z \/
      pIndex_ref (so_refs out) = (pIndex_ref r - 1)%Z) /\
     slewCooldown_ref (so_refs out) = P.slewStepSec /\
     P.slewStepSec = 0.3).
Proof.
  split; [| split].
  - intros c0 h0 r0 o1 mid r2 c1 h1 o3 H1 Hch1 Hmid Hrun Hh1 H3 Hch3.
    destruct (substep_slew c0 h0 None r0 o1 H1) as [_ [[Hs _] | [_ [_ [_ [_ Hcd1]]]]]];
      [contradiction |].
    assert (Hinv : t_ref (so_refs o1) + P.slewStepSec
                   <= t_ref r2 + slewCooldown_ref r2).
    { apply (substeps_cooldown mid (so_refs o1) r2 _ Hmid Hrun);
        [lra | rewrite Hcd1; lra]. }
    destruct (substep_slew c1 h1 None r2 o3 H3) as [Ht3 [[Hs _] | [_ [Hz _]]]];
      [contradiction |].
    pose proof (cooldownAfter_zero h1 r2 (Rlt_le _ _ Hh1) Hz). lra.
  - intros c h le r out Hm Hout Hpos.
    destruct (substep_slew c h le r out Hout) as [_ [[Hi [Hf [Hv _]]] | [_ [Hz _]]]].
    + rewrite Hm in Hf, Hv. repeat split; assumption.
    + lra.
  - intros c h le r out Hout Hch.
    destruct (substep_slew c h le r out Hout)
      as [_ [[Hs _] | [Hm [_ [_ [Hstep Hcd]]]]]]; [contradiction |].
    split; [exact Hm |]. split; [exact Hstep |]. split; [exact Hcd | reflexivity].
Qed.

Lemma desired_towards_target (c : Config) (r : Refs) :
  (pIndex_ref r < targetPIndex c)%Z -> (pIndex_ref r < 6)%Z ->
  (pIndex_ref r < fst (desiredIndex c r))%Z.
Proof.
  intros Ht H6. unfold desiredIndex. rewrite pstates_length_7.
  destruct (Rge_dec (T_ref r) (thermalLimit c));
    [| destruct (Rgt_dec (T_ref r) (thermalLimit c - HYST))];
    destruct (Rlt_dec (battPctOf c (EWh_ref r)) 20); cbn [fst]; lia.
Qed.

(** An automatic sub-step with the cooldown at zero and the target further
    down the table moves one entry down. *)
Lemma substep_moves_down (c : Config) (h : R) (r : Refs) :
  manualOverride c = false ->
  cooldownAfter h r = 0 ->
  (pIndex_ref r < targetPIndex c)%Z ->
  (0 <= pIndex_ref r < 6)%Z ->
  exists out, substep c h None r = Ok out /\
    pIndex_ref (so_refs out) = (pIndex_ref r + 1)%Z /\
    slewCooldown_ref (so_refs out) = P.slewStepSec /\
    t_ref (so_refs out) = t_ref r + h.
Proof.
  intros Hm Hz Ht Hi.
  assert (Hr : (0 <= pIndex_ref r <= 6)%Z) by lia.
  destruct (substep_total c h None r Hr) as [out [Hout _]].
  exists out. split; [exact Hout |].
  pose proof (desired_towards_target c r Ht (proj2 Hi)) as Hd.
  destruct (substep_slew c h None r out Hout) as [Htime Hcase].
  apply substep_inv in Hout as [g [Hg ->]].
  destruct (governor_auto c h r g Hm Hg)
    as [_ [[Hs [_ [_ [_ [Hnz | Hstay]]]]] | [_ [Hidx [_ [Hcd _]]]]]].
  - contradiction.
  - unfold slewTowards in Hstay.
    destruct (Z.ltb_spec (fst (desiredIndex c r)) (pIndex_ref r)); [lia |].
    destruct (Z.gtb_spec (fst (desiredIndex c r)) (pIndex_ref r)); lia.
  - cbn in *. repeat split; try assumption.
    rewrite Hidx. unfold slewTowards.
    destruct (Z.ltb_spec (fst (desiredIndex c r)) (pIndex_ref r)); [lia |].
    destruct (Z.gtb_spec (fst (desiredIndex c r)) (pIndex_ref r)); lia.
Qed.

(** An automatic sub-step with cooldown left over holds the index. *)
Lemma substep_holds (c : Config) (h : R) (r : Refs) :
  manualOverride c = false ->
  cooldownAfter h r <> 0 ->
  (0 <= pIndex_ref r <= 6)%Z ->
  exists out, substep c h None r = Ok out /\
    pIndex_ref (so_refs out) = pIndex_ref r /\
    slewCooldown_ref (so_refs out) = cooldownAfter h r /\
    t_ref (so_refs out) = t_ref r + h.
Proof.
  intros Hm Hnz Hr.
  destruct (substep_total c h None r Hr) as [out [Hout _]].
  exists out. split; [exact Hout |].
  destruct (substep_slew c h None r out Hout)
    as [Htime [[Hi [_ [_ Hcd]]] | [_ [Hz _]]]]; [| contradiction].
  rewrite Hm in Hcd. repeat split; assumption.
Qed.

(** Three quarter-second sub-steps after a reset with the workload slider at
    the memory-bound end: the index moves from 2 to 3, holds, and moves to 4. *)
Lemma memory_bound_run :
  exists o1 o2 o3,
    substep memoryBoundConfig 0.25 None (freshRefs memoryBoundConfig) = Ok o1 /\
    pIndex_ref (so_refs o1) = 3%Z /\ t_ref (so_refs o1) = 0.25 /\
    substep memoryBoundConfig 0.25 None (so_refs o1) = Ok o2 /\
    cooldownAfter 0.25 (so_refs o1) = 0.05 /\
    pIndex_ref (so_refs o2) = 3%Z /\ t_ref (so_refs o2) = 0.5 /\
    substep memoryBoundConfig 0.25 None (so_refs o2) = Ok o3 /\
    pIndex_ref (so_refs o3) = 4%Z /\ t_ref (so_refs o3) = 0.75.
Proof.
  pose proof (targetPIndex_memory_bound memoryBoundConfig eq_refl) as Htgt.
  destruct (substep_moves_down memoryBoundConfig 0.25
              (freshRefs memoryBoundConfig))
    as [o1 [H1 [Hi1 [Hc1 Ht1]]]].
  { reflexivity. }
  { unfold cooldownAfter. cbn [slewCooldown_ref freshRefs].
    destruct (Rgt_dec 0 0); [lra | reflexivity]. }
  { rewrite Htgt. cbn. lia. }
  { cbn. lia. }
  cbn [pIndex_ref t_ref freshRefs] in Hi1, Ht1.
  assert (Hcd2 : cooldownAfter 0.25 (so_refs o1) = 0.05).
  { unfold cooldownAfter. rewrite Hc1. unfold P.slewStepSec.
    destruct (Rgt_dec 0.3 0); [| lra].
    rewrite Rmax_right by lra. lra. }
  destruct (substep_holds memoryBoundConfig 0.25 (so_refs o1))
    as [o2 [H2 [Hi2 [Hc2 Ht2]]]].
  { reflexivity. }
  { rewrite Hcd2. lra. }
  { rewrite Hi1. lia. }
  destruct (substep_moves_down memoryBoundConfig 0.25 (so_refs o2))
    as [o3 [H3 [Hi3 [Hc3 Ht3]]]].
  { reflexivity. }
  { unfold cooldownAfter. rewrite Hc2, Hcd2.
    destruct (Rgt_dec 0.05 0); [| lra].
    apply Rmax_left. lra. }
  { rewrite Htgt, Hi2, Hi1. lia. }
  { rewrite Hi2, Hi1. lia. }
  exists o1, o2, o3.
  split; [exact H1 |]. split; [rewrite Hi1; reflexivity |].
  split; [lra |]. split; [exact H2 |]. split; [exact Hcd2 |].
  split; [rewrite Hi2; exact Hi1 |]. split; [lra |].
  split; [exact H3 |]. split; [rewrite Hi3, Hi2, Hi1; reflexivity | lra].
Qed.

(** The run [memory_bound_run]: changes at clock 0.25 and 0.75, a hold in
    between with 0.05 s of cooldown left. *)
Lemma C4_slew_window_witness :
  exists o1 o2 o3,
    (* the hypotheses of the first part *)
    substep memoryBoundConfig 0.25 None (freshRefs memoryBoundConfig) = Ok o1 /\
    pIndex_ref (so_refs o1) <> pIndex_ref (freshRefs memoryBoundConfig) /\
    Forall (fun s : Config * R => 0 < snd s) [(memoryBoundConfig, 0.25)] /\
    substeps [(memoryBoundConfig, 0.25)] (so_refs o1) = Ok (so_refs o2) /\
    0 < 0.25 /\
    substep memoryBoundConfig 0.25 None (so_refs o2) = Ok o3 /\
    pIndex_ref (so_refs o3) <> pIndex_ref (so_refs o2) /\
    (* its conclusion *)
    t_ref (so_refs o1) + P.slewStepSec <= t_ref (so_refs o3) /\
    (* the second part at the middle sub-step *)
    manualOverride memoryBoundConfig = false /\
    cooldownAfter 0.25 (so_refs o1) > 0 /\
    (pIndex_ref (so_refs o2) = pIndex_ref (so_refs o1) /\
     f_ref (so_refs o2) = f_ref (so_refs o1) /\
     V_ref (so_refs o2) = V_ref (so_refs o1)) /\
    (* the third part at the first sub-step *)
    (manualOverride memoryBoundConfig = false /\
     (pIndex_ref (so_refs o1)
        = (pIndex_ref (freshRefs memoryBoundConfig) + 1)%Z \/
      pIndex_ref (so_refs o1)
        = (pIndex_ref (freshRefs memoryBoundConfig) - 1)%Z) /\
     slewCooldown_ref (so_refs o1) = P.slewStepSec /\
     P.slewStepSec = 0.3).
Proof.
  destruct memory_bound_run
    as [o1 [o2 [o3 [H1 [Hi1 [Ht1 [H2 [Hcd [Hi2 [Ht2 [H3 [Hi3 Ht3]]]]]]]]]]]].
  exists o1, o2, o3.
  assert (Hch1 : pIndex_ref (so_refs o1)
                 <> pIndex_ref (freshRefs memoryBoundConfig))
    by (rewrite Hi1; cbn; lia).
  assert (Hmid : Forall (fun s : Config * R => 0 < snd s)
                   [(memoryBoundConfig, 0.25)])
    by (constructor; [cbn; lra | constructor]).
  assert (Hrun : substeps [(memoryBoundConfig, 0.25)] (so_refs o1)
                 = Ok (so_refs o2))
    by (cbn [substeps]; rewrite H2; reflexivity).
  assert (Hh : 0 < 0.25) by lra.
  assert (Hch3 : pIndex_ref (so_refs o3) <> pIndex_ref (so_refs o2))
    by (rewrite Hi3, Hi2; lia).
  assert (Hpos : cooldownAfter 0.25 (so_refs o1) > 0) by (rewrite Hcd; lra).
  split; [exact H1 |]. split; [exact Hch1 |]. split; [exact Hmid |].
  split; [exact Hrun |]. split; [exact Hh |]. split; [exact H3 |].
  split; [exact Hch3 |].
  split; [exact (proj1 C4_slew_window _ _ _ _ _ _ _ _ _
                   H1 Hch1 Hmid Hrun Hh H3 Hch3) |].
  split; [reflexivity |]. split; [exact Hpos |].
  split; [exact (proj1 (proj2 C4_slew_window) memoryBoundConfig 0.25 None
                   (so_refs o1) o2 eq_refl H2 Hpos) |].
  exact (proj2 (proj2 C4_slew_window) _ _ _ _ _ H1 Hch1).
Defined.

(** ** The end of a run *)

Lemma loopCond_intro (er : EndReason) (l : Loop) :
  0 < vtime l -> coalesce (localEnd l) er = running -> loopCond er l = true.
Proof.
  intros Hv He. unfold loopCond. rewrite He.
  destruct (Rgt_dec (vtime l) 0); [reflexivity | lra].
Qed.

(** Once the end reason is no longer [running] the callback changes nothing. *)
Lemma tick_frozen (c : Config) (e : Engine) :
  endReason (sim e) <> running -> tick c e = Ok e.
Proof.
  intros Hne. unfold tick. cbv zeta.
  rewrite while_loop_exit.
  - destruct e as [r [ser er rem thr]]. reflexivity.
  - unfold loopCond, startLoop. cbn [localEnd coalesce].
    destruct (endReason (sim e)); try apply andb_false_r.
    exfalso. apply Hne. reflexivity.
Qed.

(** The end reason a callback leaves is the one its loop ended with. *)
Lemma tick_endReason (c : Config) (e e' : Engine) :
  endReason (sim e) = running ->
  tick c e = Ok e' ->
  exists l, while_loop tickFuel c running (startLoop c e) = Ok l /\
            refs e' = l_refs l /\
            endReason (sim e') = coalesce (localEnd l) running.
Proof.
  intros Hrun. unfold tick. cbv zeta. rewrite Hrun. unfold bind.
  destruct (while_loop tickFuel c running (startLoop c e)) as [l | |];
    try discriminate.
  intros H. injection H as <-. exists l. cbn.
  split; [reflexivity |]. split; [reflexivity |].
  destruct (localEnd l); reflexivity.
Qed.

(** A callback whose first sub-step ends the run executes that sub-step only. *)
Lemma tick_single_substep (c : Config) (e : Engine) (out : StepOut)
    (x : EndReason) :
  endReason (sim e) = running ->
  0 < vtime (startLoop c e) ->
  substep c (Rmin P.dt (vtime (startLoop c e))) None (refs e) = Ok out ->
  so_end out = Some x -> x <> running ->
  tick c e =
  Ok {| refs := so_refs out;
        sim := {| series := appendPoints (series (sim e)) [so_point out];
                  endReason := x;
                  remainingGI := so_remainingGI out;
                  throttling := so_throttling out |} |}.
Proof.
  intros Hrun Hv Hout Hend Hx. unfold tick. cbv zeta. rewrite Hrun.
  unfold tickFuel. rewrite while_loop_iter
    by (apply loopCond_intro; [exact Hv | reflexivity]).
  unfold loopBody. cbn [localEnd l_refs startLoop] in *.
  rewrite Hout. cbn [bind].
  rewrite while_loop_exit
    by (apply (loopCond_ended _ _ x); [exact Hend | exact Hx]).
  cbn. rewrite Hend. reflexivity.
Qed.

Lemma desiredIndex_cool (c : Config) (r : Refs) :
  T_ref r <= thermalLimit c - HYST ->
  20 <= battPctOf c (EWh_ref r) ->
  desiredIndex c r = (targetPIndex c, false).
Proof.
  intros HT Hb. unfold desiredIndex. unfold HYST in *.
  destruct (Rge_dec (T_ref r) (thermalLimit c)); [lra |].
  destruct (Rgt_dec (T_ref r) (thermalLimit c - 2.0)); [lra |].
  destruct (Rlt_dec (battPctOf c (EWh_ref r)) 20); [lra | reflexivity].
Qed.

(** The governor's first decision after a reset with the tiny job: from
    index 2 one step up the table, to 2.6 GHz and 0.98 V. *)
Lemma governor_tiny_first (h : R) :
  governor tinyConfig h (freshRefs tinyConfig)
  = Ok (mkGov P.slewStepSec 1 2.6 0.98 false).
Proof.
  unfold governor. cbn [manualOverride tinyConfig].
  rewrite desiredIndex_cool.
  - rewrite (targetPIndex_mix_09 tinyConfig eq_refl).
    assert (Hcd : cooldownAfter h (freshRefs tinyConfig) = 0).
    { unfold cooldownAfter. cbn [slewCooldown_ref freshRefs].
      destruct (Rgt_dec 0 0); [lra | reflexivity]. }
    rewrite Hcd. destruct (Req_dec_T 0 0) as [_ | Hn]; [| contradiction].
    reflexivity.
  - cbn. unfold HYST. lra.
  - unfold battPctOf. cbn [EWh_ref freshRefs batteryWh tinyConfig].
    rewrite Rmax_right by lra. lra.
Qed.

Lemma Pleak_pos (vv tt : R) : 0 < Pleak vv tt.
Proof.
  unfold Pleak, P.Pleak0.
  pose proof (exp_pos (P.kV * (vv - 0.8))).
  pose proof (exp_pos (P.gamma * (tt - 25))).
  apply Rmult_lt_0_compat; [apply Rmult_lt_0_compat; [lra | assumption] | assumption].
Qed.

(** The claim of C1 read literally fails: with a 0.1 billion-instruction job
    and a 0.00001 Wh battery, the single sub-step of the first callback
    after a reset both finishes the work and drains the battery, and the
    run ends with reason [battery], not [completed]. *)
Lemma C1_battery_overrides_completion :
  exists e0 e1,
    resetSim tinyConfig = Ok e0 /\
    tick tinyConfig e0 = Ok e1 /\
    length (series (sim e1)) = 1%nat /\
    remainingGI_ref (refs e1) <= 0 /\
    EWh_ref (refs e1) >= batteryWh tinyConfig /\
    endReason (sim e1) = battery /\
    endReason (sim e1) <> completed.
Proof.
  set (e0 := {| refs := freshRefs tinyConfig; sim := freshSim tinyConfig |}).
  assert (Hv : vtime (startLoop tinyConfig e0) = 0.1).
  { unfold startLoop. cbn [vtime speed tinyConfig]. unfold tickMs, maxSpeed.
    rewrite clamp_inside by lra. lra. }
  assert (Hh : Rmin P.dt (vtime (startLoop tinyConfig e0)) = 0.1).
  { rewrite Hv. unfold P.dt. apply Rmin_right. lra. }
  set (g := mkGov P.slewStepSec 1 2.6 0.98 false).
  set (out := afterGovernor tinyConfig 0.1 None (freshRefs tinyConfig) g).
  assert (Hout : substep tinyConfig 0.1 None (refs e0) = Ok out).
  { unfold substep. cbn [refs e0]. rewrite governor_tiny_first. reflexivity. }
  assert (Hperf : perfGIPS tinyConfig 2.6 = 4.81).
  { unfold perfGIPS, ipc, P.IPCmin, P.IPCmax. cbn [workloadMix tinyConfig].
    rewrite Rmax_right by lra. lra. }
  assert (Hrem : remainingGI_ref (so_refs out) = 0).
  { cbn. rewrite Hperf. apply Rmax_left. lra. }
  assert (Hewh : EWh_ref (so_refs out) >= batteryWh tinyConfig).
  { cbn. pose proof (Pleak_pos 0.98 25) as Hl.
    unfold Ptot, Pdyn, alpha. cbn [ceffNF workloadMix tinyConfig]. lra. }
  assert (Hacc : ~ overheatAccum_ref (so_refs out)
                   >= Rmax 1 (overheatGrace tinyConfig)).
  { cbn. rewrite Rmax_right by lra. unfold overheatStep.
    match goal with |- context [Rgt_dec ?a ?b] => destruct (Rgt_dec a b) end.
    - lra.
    - rewrite Rmax_left by lra. lra. }
  assert (Hend : so_end out = Some battery).
  { destruct (endAfter_cases tinyConfig None (remainingGI_ref (so_refs out))
                (EWh_ref (so_refs out)) (overheatAccum_ref (so_refs out)))
      as [_ [Hb _]].
    exact (Hb Hacc Hewh). }
  exists e0, {| refs := so_refs out;
               sim := {| series := appendPoints (series (sim e0)) [so_point out];
                         endReason := battery;
                         remainingGI := so_remainingGI out;
                         throttling := so_throttling out |} |}.
  split; [reflexivity |]. split.
  - apply tick_single_substep; try reflexivity.
    + rewrite Hv. lra.
    + rewrite Hh. exact Hout.
    + exact Hend.
    + discriminate.
  - cbn [refs sim series endReason]. split; [reflexivity |].
    split; [rewrite Hrem; lra |]. split; [exact Hewh |].
    split; [reflexivity | discriminate].
Qed.

(** C1 (amended).  A loop iteration assigns the end reason in program order
    (completion, then battery, then overheat), each assignment overwriting
    the one before: when several conditions hold after the same sub-step
    the last one in that order stays, overheat before battery before
    completion.  As soon as any of them holds the loop stops at that
    sub-step, the callback stores that reason, and every later callback
    leaves the engine, and with it the stored reason, unchanged. *)
Theorem C1_last_condition_wins :
  (forall (c : Config) (er : EndReason) (l : Loop) (n : nat),
     loopCond er l = true ->
     (0 <= pIndex_ref (l_refs l) <= 6)%Z ->
     exists l', loopBody c l = Ok l' /\
       let done := remainingGI_ref (l_refs l') <= 0 in
       let dead := EWh_ref (l_refs l') >= batteryWh c in
       let hot :=
         overheatAccum_ref (l_refs l') >= Rmax 1 (overheatGrace c) in
       (hot -> localEnd l' = Some overheat) /\
       (~ hot -> dead -> localEnd l' = Some battery) /\
       (~ hot -> ~ dead -> done -> localEnd l' = Some completed) /\
       (~ hot -> ~ dead -> ~ done -> localEnd l' = localEnd l) /\
       (hot \/ dead \/ done -> while_loop (S n) c er l = Ok l')) /\
  (forall (c : Config) (e : Engine),
     endReason (sim e) <> running -> tick c e = Ok e) /\
  (forall (c : Config) (e e' : Engine),
     endReason (sim e) = running ->
     tick c e = Ok e' ->
     exists l, while_loop tickFuel c running (startLoop c e) = Ok l /\
               refs e' = l_refs l /\
               endReason (sim e') = coalesce (localEnd l) running).
Proof.
  split; [| split; [exact tick_frozen | exact tick_endReason]].
  intros c er l n Hc Hi.
  destruct (substep_total c (Rmin P.dt (vtime l)) (localEnd l) (l_refs l) Hi)
    as [out [Hout _]].
  assert (Hbody : loopBody c l
                  = Ok {| vtime := vtime l - Rmin P.dt (vtime l);
                          localEnd := so_end out;
                          localThrottling := so_throttling out;
                          newPoints := newPoints l ++ [so_point out];
                          l_remainingGI := so_remainingGI out;
                          l_refs := so_refs out |})
    by (unfold loopBody; rewrite Hout; reflexivity).
  eexists. split; [exact Hbody |].
  cbn [l_refs localEnd].
  assert (Hend : so_end out
                 = endAfter c (localEnd l) (remainingGI_ref (so_refs out))
                     (EWh_ref (so_refs out)) (overheatAccum_ref (so_refs out))).
  { apply substep_inv in Hout as [g [_ ->]]. reflexivity. }
  destruct (endAfter_cases c (localEnd l) (remainingGI_ref (so_refs out))
              (EWh_ref (so_refs out)) (overheatAccum_ref (so_refs out)))
    as [H1 [H2 [H3 H4]]].
  rewrite <- Hend in H1, H2, H3, H4.
  split; [exact H1 |]. split; [exact H2 |]. split; [exact H3 |].
  split; [exact H4 |].
  intros Hfired. rewrite while_loop_iter by exact Hc.
  rewrite Hbody. cbn [bind]. apply while_loop_exit.
  assert (Hterm : exists x, so_end out = Some x /\ x <> running).
  { destruct (Rge_dec (overheatAccum_ref (so_refs out))
                (Rmax 1 (overheatGrace c))) as [Ha | Ha].
    - exists overheat. split; [exact (H1 Ha) | discriminate].
    - destruct (Rge_dec (EWh_ref (so_refs out)) (batteryWh c)) as [Hb | Hb].
      + exists battery. split; [exact (H2 Ha Hb) | discriminate].
      + destruct (Rle_dec (remainingGI_ref (so_refs out)) 0) as [Hr | Hr].
        * exists completed. split; [exact (H3 Ha Hb Hr) | discriminate].
        * tauto. }
  destruct Hterm as [x [Hx Hnr]].
  apply (loopCond_ended _ _ x); [exact Hx | exact Hnr].
Qed.

(** The first loop iteration after a reset with the tiny job, and a callback
    on an engine that has already stopped. *)
Lemma C1_last_condition_wins_witness :
  loopCond running (startLoop tinyConfig tinyStart) = true /\
  (0 <= pIndex_ref (l_refs (startLoop tinyConfig tinyStart)) <= 6)%Z /\
  (exists l', loopBody tinyConfig (startLoop tinyConfig tinyStart) = Ok l' /\
     let done := remainingGI_ref (l_refs l') <= 0 in
     let dead := EWh_ref (l_refs l') >= batteryWh tinyConfig in
     let hot :=
       overheatAccum_ref (l_refs l') >= Rmax 1 (overheatGrace tinyConfig) in
     (hot -> localEnd l' = Some overheat) /\
     (~ hot -> dead -> localEnd l' = Some battery) /\
     (~ hot -> ~ dead -> done -> localEnd l' = Some completed) /\
     (~ hot -> ~ dead -> ~ done ->
      localEnd l' = localEnd (startLoop tinyConfig tinyStart)) /\
     (hot \/ dead \/ done ->
      while_loop (S 19) tinyConfig running (startLoop tinyConfig tinyStart)
      = Ok l')) /\
  endReason (sim tinyStopped) <> running /\
  tick tinyConfig tinyStopped = Ok tinyStopped.
Proof.
  assert (Hc : loopCond running (startLoop tinyConfig tinyStart) = true).
  { apply loopCond_intro; [| reflexivity].
    unfold startLoop. cbn [vtime speed tinyConfig]. unfold tickMs, maxSpeed.
    rewrite clamp_inside by lra. lra. }
  assert (Hi : (0 <= pIndex_ref (l_refs (startLoop tinyConfig tinyStart)) <= 6)%Z)
    by (cbn; lia).
  assert (Hs : endReason (sim tinyStopped) <> running) by discriminate.
  split; [exact Hc |]. split; [exact Hi |].
  split; [exact (proj1 C1_last_condition_wins tinyConfig running
                   (startLoop tinyConfig tinyStart) 19%nat Hc Hi) |].
  split; [exact Hs |].
  exact (proj1 (proj2 C1_last_condition_wins) tinyConfig tinyStopped Hs).
Defined.


(** * Beyond the claims: what the component keeps true *)

(** ** What the loop preserves *)

(** A property of the loop state that every iteration keeps holds when the
    loop returns, and the loop returns only with its condition false. *)
Lemma while_loop_invariant (I : Loop -> Prop) (c : Config) (er : EndReason) :
  (forall l l', loopCond er l = true -> I l -> loopBody c l = Ok l' -> I l') ->
  forall (n : nat) (l l' : Loop),
    I l -> while_loop n c er l = Ok l' -> I l' /\ loopCond er l' = false.
Proof.
  intros Hstep. induction n as [| n IH]; intros l l' Hl Hrun.
  - simpl in Hrun. destruct (loopCond er l) eqn:Hc; [discriminate |].
    injection Hrun as <-. split; assumption.
  - destruct (loopCond er l) eqn:Hc.
    + rewrite while_loop_iter in Hrun by exact Hc. unfold bind in Hrun.
      destruct (loopBody c l) as [l1 | |] eqn:Hb; try discriminate.
      apply (IH l1 l'); [apply (Hstep l l1 Hc Hl Hb) | exact Hrun].
    + rewrite while_loop_exit in Hrun by exact Hc.
      injection Hrun as <-. split; assumption.
Qed.

Lemma tick_inv (c : Config) (e e' : Engine) :
  tick c e = Ok e' ->
  exists l,
    while_loop tickFuel c (endReason (sim e)) (startLoop c e) = Ok l /\
    e' = {| refs := l_refs l;
            sim := {| series := appendPoints (series (sim e)) (newPoints l);
                      endReason :=
                        match localEnd l with
                        | Some x =>
                            if EndReason_eqb (endReason (sim e)) running
                            then x else endReason (sim e)
                        | None => endReason (sim e)
                        end;
                      remainingGI := l_remainingGI l;
                      throttling := localThrottling l |} |}.
Proof.
  unfold tick. cbv zeta. unfold bind.
  destruct (while_loop tickFuel c (endReason (sim e)) (startLoop c e))
    as [l | |]; try discriminate.
  intros H. injection H as <-. exists l. split; reflexivity.
Qed.

(** Every table entry lies inside the frequency and voltage bounds. *)
Lemma pstate_at_bounds (i : Z) (ps : PState) :
  pstate_at i = Some ps ->
  (0 <= i <= 6)%Z /\
  P.fMin <= ps_f ps <= P.fMax /\ P.vMin <= ps_V ps <= P.vMax.
Proof.
  unfold pstate_at. destruct (Z.ltb_spec i 0) as [Hneg | Hpos]; [discriminate |].
  intros H.
  assert (Hn : (Z.to_nat i < 7)%nat).
  { apply (proj1 (nth_error_Some P.pstates (Z.to_nat i))).
    rewrite H. discriminate. }
  split; [lia |].
  remember (Z.to_nat i) as n eqn:En. clear En Hpos.
  unfold P.fMin, P.fMax, P.vMin, P.vMax.
  do 7 (destruct n as [| n];
        [cbn in H; injection H as <-; cbn; lra |]).
  lia.
Qed.

Lemma overheatStep_bounds (c : Config) (h tnew acc clock : R) :
  0 < h -> 0 <= acc <= clock ->
  0 <= overheatStep c h tnew acc <= clock + h.
Proof.
  intros Hh Hacc. unfold overheatStep.
  destruct (Rgt_dec tnew (thermalLimit c + OVERHEAT_MARGIN)); [lra |].
  unfold Rmax. destruct (Rle_dec 0 (acc - 2 * h)); lra.
Qed.

Lemma cooldownAfter_bounds (h : R) (r : Refs) :
  0 < h -> 0 <= slewCooldown_ref r <= P.slewStepSec ->
  0 <= cooldownAfter h r <= P.slewStepSec.
Proof.
  intros Hh Hcd. unfold cooldownAfter.
  destruct (Rgt_dec (slewCooldown_ref r) 0); [| lra].
  unfold Rmax. destruct (Rle_dec 0 (slewCooldown_ref r - h)); lra.
Qed.

(** One sub-step of positive size keeps [refs_ok]. *)
Lemma substep_refs_ok (c : Config) (h : R) (le : option EndReason) (r : Refs)
    (out : StepOut) :
  0 < h -> refs_ok r -> substep c h le r = Ok out -> refs_ok (so_refs out).
Proof.
  intros Hh [Hi [Hf [Hv [Hcd Hacc]]]] Hout.
  apply substep_inv in Hout as [g [Hg ->]].
  unfold refs_ok. cbn.
  assert (Hgov : (0 <= g_pIndex g <= 6)%Z /\
                 P.fMin <= g_f g <= P.fMax /\
                 P.vMin <= g_V g <= P.vMax /\
                 0 <= g_slewCooldown g <= P.slewStepSec).
  { destruct (manualOverride c) eqn:Hm.
    - rewrite governor_manual in Hg by exact Hm. injection Hg as <-. cbn.
      split; [exact Hi |].
      split; [apply clamp_cases; unfold P.fMin, P.fMax; lra |].
      split; [apply clamp_cases; unfold P.vMin, P.vMax; lra | exact Hcd].
    - destruct (governor_auto c h r g Hm Hg)
        as [_ [[Ei [Ec [Ef [Ev _]]]] | [_ [_ [_ [Ec Hps]]]]]].
      + rewrite Ei, Ec, Ef, Ev.
        repeat split; try tauto; try lia;
          apply (cooldownAfter_bounds h r Hh Hcd).
      + destruct (pstate_at_bounds _ _ Hps) as [Hr [Hbf Hbv]]. cbn in Hbf, Hbv.
        rewrite Ec. unfold P.slewStepSec.
        repeat split; try tauto; try lia; lra. }
  destruct Hgov as [Gi [Gf [Gv Gc]]].
  split; [exact Gi |]. split; [exact Gf |]. split; [exact Gv |].
  split; [exact Gc |].
  apply overheatStep_bounds; assumption.
Qed.

Lemma freshRefs_ok (c : Config) : refs_ok (freshRefs c).
Proof.
  unfold refs_ok, P.fMin, P.fMax, P.vMin, P.vMax, P.slewStepSec. cbn.
  repeat split; try lia; lra.
Qed.

(** The callback keeps every property of the refs that sub-steps of positive
    size keep. *)
Lemma tick_preserves (I : Refs -> Prop) (c : Config) (e e' : Engine) :
  (forall h le r out, 0 < h <= P.dt -> I r -> substep c h le r = Ok out ->
                      I (so_refs out)) ->
  I (refs e) -> tick c e = Ok e' -> I (refs e').
Proof.
  intros Hstep He Htick. apply tick_inv in Htick as [l [Hrun ->]].
  cbn [refs].
  apply (while_loop_invariant (fun l => I (l_refs l)) c (endReason (sim e)))
    in Hrun as [Hl _]; [exact Hl | | exact He].
  intros l0 l1 Hc Hl0 Hb.
  apply loopBody_inv in Hb as [out [Hout ->]]. cbn [l_refs].
  exact (Hstep _ _ _ _ (loop_step_size _ _ Hc) Hl0 Hout).
Qed.

Lemma played_refs_ok (e : Engine) : played e -> refs_ok (refs e).
Proof.
  induction 1 as [c e Hr | c e e' _ IH Ht | c playing e _ IH].
  - rewrite resetSim_fresh in Hr. injection Hr as <-. apply freshRefs_ok.
  - apply (tick_preserves refs_ok c e e'); [| exact IH | exact Ht].
    intros h le r out [Hh _]. apply substep_refs_ok. exact Hh.
  - unfold syncWorkload. destruct playing; [exact IH |].
    unfold refs_ok in *. cbn. exact IH.
Qed.

(** X1.  Whatever sequence of resets, callbacks and workload edits the
    component has gone through, with whatever knobs, the P-state index is
    inside the table (0 to 6), and the next callback, again with any knobs,
    runs to its end: it never reads [P.pstates] outside the table and its
    loop needs at most 20 iterations. *)
Theorem X1_callback_never_fails (e : Engine) :
  played e ->
  (0 <= pIndex_ref (refs e) <= 6)%Z /\
  (exists ps, pstate_at (pIndex_ref (refs e)) = Some ps) /\
  forall c : Config, exists e', tick c e = Ok e' /\ played e'.
Proof.
  intros Hp. destruct (played_refs_ok e Hp) as [Hi _].
  split; [exact Hi |]. split; [apply pstate_at_in_range; exact Hi |].
  intros c. destruct (tick_total c e Hi) as [e' [Ht _]].
  exists e'. split; [exact Ht | exact (played_tick c e e' Hp Ht)].
Qed.

(** The engine right after a reset with the tiny job. *)
Lemma X1_callback_never_fails_witness :
  played tinyStart /\
  (0 <= pIndex_ref (refs tinyStart) <= 6)%Z /\
  (exists ps, pstate_at (pIndex_ref (refs tinyStart)) = Some ps) /\
  forall c : Config, exists e', tick c tinyStart = Ok e' /\ played e'.
Proof.
  assert (Hp : played tinyStart)
    by exact (played_reset tinyConfig tinyStart eq_refl).
  split; [exact Hp | exact (X1_callback_never_fails tinyStart Hp)].
Defined.

(** X2.  In every engine the component can hold, the active operating point
    lies inside the frequency and voltage bounds (0.6 to 3.5 GHz, 0.6 to
    1.1 V), whether it came from the table or from the manual sliders, and
    the slew cooldown lies between 0 and the slew window of 0.3 s. *)
Theorem X2_operating_point_in_bounds (e : Engine) :
  played e ->
  P.fMin <= f_ref (refs e) <= P.fMax /\
  P.vMin <= V_ref (refs e) <= P.vMax /\
  0 <= slewCooldown_ref (refs e) <= P.slewStepSec.
Proof.
  intros Hp. destruct (played_refs_ok e Hp) as [_ [Hf [Hv [Hcd _]]]].
  split; [exact Hf |]. split; [exact Hv | exact Hcd].
Qed.

(** The engine right after a reset with the tiny job. *)
Lemma X2_operating_point_in_bounds_witness :
  played tinyStart /\
  P.fMin <= f_ref (refs tinyStart) <= P.fMax /\
  P.vMin <= V_ref (refs tinyStart) <= P.vMax /\
  0 <= slewCooldown_ref (refs tinyStart) <= P.slewStepSec.
Proof.
  assert (Hp : played tinyStart)
    by exact (played_reset tinyConfig tinyStart eq_refl).
  split; [exact Hp | exact (X2_operating_point_in_bounds tinyStart Hp)].
Defined.

(** ** The operating point and the table *)

Lemma substep_auto_table (c : Config) (h : R) (le : option EndReason)
    (r : Refs) (out : StepOut) :
  manualOverride c = false ->
  pstate_at (pIndex_ref r) = Some (mkPState (f_ref r) (V_ref r)) ->
  substep c h le r = Ok out ->
  pstate_at (pIndex_ref (so_refs out))
  = Some (mkPState (f_ref (so_refs out)) (V_ref (so_refs out))).
Proof.
  intros Hm Hr Hout. apply substep_inv in Hout as [g [Hg ->]]. cbn.
  destruct (governor_auto c h r g Hm Hg)
    as [_ [[Ei [_ [Ef [Ev _]]]] | [_ [_ [_ [_ Hps]]]]]].
  - rewrite Ei, Ef, Ev. exact Hr.
  - exact Hps.
Qed.

(** X3.  As long as the manual override has never been on, the active
    frequency and voltage are exactly the table entry at the current
    P-state index. *)
Theorem X3_auto_point_is_table_entry (e : Engine) :
  played_auto e ->
  pstate_at (pIndex_ref (refs e))
  = Some (mkPState (f_ref (refs e)) (V_ref (refs e))).
Proof.
  induction 1 as [c e Hr | c e e' _ IH Hm Ht | c playing e _ IH].
  - rewrite resetSim_fresh in Hr. injection Hr as <-. reflexivity.
  - apply (tick_preserves
             (fun r => pstate_at (pIndex_ref r)
                       = Some (mkPState (f_ref r) (V_ref r))) c e e');
      [| exact IH | exact Ht].
    intros h le r out _. apply substep_auto_table. exact Hm.
  - unfold syncWorkload. destruct playing; exact IH.
Qed.

(** The engine right after a reset with the tiny job. *)
Lemma X3_auto_point_is_table_entry_witness :
  played_auto tinyStart /\
  pstate_at (pIndex_ref (refs tinyStart))
  = Some (mkPState (f_ref (refs tinyStart)) (V_ref (refs tinyStart))).
Proof.
  assert (Hp : played_auto tinyStart)
    by exact (auto_reset tinyConfig tinyStart eq_refl).
  split; [exact Hp | exact (X3_auto_point_is_table_entry tinyStart Hp)].
Defined.

(** ** Power, energy and temperature *)

Lemma Ptot_pos (c : Config) (fq vv tt : R) :
  0 <= ceffNF c -> 0 <= workloadMix c -> 0 <= fq -> 0 < Ptot c fq vv tt.
Proof.
  intros Hc Hm Hf. unfold Ptot, Pdyn, alpha.
  pose proof (Pleak_pos vv tt) as Hl.
  assert (Hvv : 0 <= vv * vv) by nra.
  assert (H1 : 0 <= ceffNF c * vv * vv)
    by (rewrite Rmult_assoc; apply Rmult_le_pos; assumption).
  assert (H2 : 0 <= ceffNF c * vv * vv * fq) by (apply Rmult_le_pos; assumption).
  assert (H3 : 0 <= ceffNF c * vv * vv * fq * (0.5 + 0.5 * workloadMix c))
    by (apply Rmult_le_pos; [assumption | lra]).
  lra.
Qed.

(** With a non-negative capacitance and workload mix, a sub-step of positive
    size draws positive power, adds energy, and does not cool the chip below
    ambient. *)
Lemma substep_energy (c : Config) (h : R) (le : option EndReason) (r : Refs)
    (out : StepOut) :
  0 < h -> 0 <= ceffNF c -> 0 <= workloadMix c -> refs_ok r ->
  substep c h le r = Ok out ->
  EWh_ref r < EWh_ref (so_refs out) /\
  (ambient c <= T_ref r -> ambient c <= T_ref (so_refs out)).
Proof.
  intros Hh Hc Hm Hok Hout.
  pose proof (substep_refs_ok c h le r out Hh Hok Hout) as [_ [Hf _]].
  apply substep_inv in Hout as [g [_ ->]]. cbn in *.
  assert (Hfq : 0 <= g_f g) by (unfold P.fMin in Hf; lra).
  pose proof (Ptot_pos c (g_f g) (g_V g) (T_ref r) Hc Hm Hfq) as Hp.
  split.
  - assert (0 < Ptot c (g_f g) (g_V g) (T_ref r) * h) by (apply Rmult_lt_0_compat; assumption).
    lra.
  - intros Ha.
    pose proof (thermalStep_between c h (Ptot c (g_f g) (g_V g) (T_ref r))
                  (T_ref r) Hh) as [Hlo _].
    assert (Hss : ambient c <= Tss c (Ptot c (g_f g) (g_V g) (T_ref r)))
      by (unfold Tss, Rth; lra).
    apply Rle_trans with (2 := Hlo). apply Rmin_glb; assumption.
Qed.

Lemma budget_bounds (c : Config) : 0.1 <= budget c <= 5.
Proof.
  unfold budget, tickMs, maxSpeed.
  destruct (clamp_cases (speed c) 1 50) as [[Hlo Hhi] _]; lra.
Qed.

(** A callback on a running engine executes at least one sub-step; the rest
    of its loop starts from what that sub-step leaves. *)
Lemma tick_first_substep (c : Config) (e e' : Engine) :
  endReason (sim e) = running ->
  tick c e = Ok e' ->
  exists out l,
    0 < Rmin P.dt (budget c) /\
    substep c (Rmin P.dt (budget c)) None (refs e) = Ok out /\
    while_loop 19 c running
      {| vtime := budget c - Rmin P.dt (budget c);
         localEnd := so_end out;
         localThrottling := so_throttling out;
         newPoints := [so_point out];
         l_remainingGI := so_remainingGI out;
         l_refs := so_refs out |} = Ok l /\
    refs e' = l_refs l /\
    series (sim e') = appendPoints (series (sim e)) (newPoints l) /\
    endReason (sim e') = coalesce (localEnd l) running /\
    remainingGI (sim e') = l_remainingGI l.
Proof.
  intros Hrun Ht. apply tick_inv in Ht as [l [Hl ->]].
  rewrite Hrun in *. unfold tickFuel in Hl.
  assert (Hc : loopCond running (startLoop c e) = true).
  { apply loopCond_intro; [| reflexivity]. unfold startLoop. cbn [vtime].
    fold (budget c). pose proof (budget_bounds c). lra. }
  rewrite while_loop_iter in Hl by exact Hc.
  pose proof (loop_step_size _ _ Hc) as [Hpos _].
  unfold bind in Hl.
  destruct (loopBody c (startLoop c e)) as [l1 | |] eqn:Hb; try discriminate.
  apply loopBody_inv in Hb as [out [Hout ->]].
  unfold startLoop in Hout, Hl, Hpos. cbn [vtime localEnd l_refs newPoints] in *.
  fold (budget c) in Hout, Hl, Hpos.
  exists out, l. cbn.
  split; [exact Hpos |]. split; [exact Hout |]. split; [exact Hl |].
  repeat split.
Qed.

(** X4.  With a non-negative capacitance and workload mix (the capacitance
    field enforces at least 0.1, the mix slider 0 to 1), a callback never
    lowers the consumed energy, and a callback on a running engine raises
    it strictly: every sub-step draws positive power. *)
Theorem X4_energy_grows (c : Config) (e e' : Engine) :
  played e ->
  0 <= ceffNF c -> 0 <= workloadMix c ->
  tick c e = Ok e' ->
  EWh_ref (refs e) <= EWh_ref (refs e') /\
  (endReason (sim e) = running -> EWh_ref (refs e) < EWh_ref (refs e')).
Proof.
  intros Hp Hc Hm Ht. pose proof (played_refs_ok e Hp) as Hok.
  assert (Hstep : forall bound h le r out,
             0 < h <= P.dt -> refs_ok r /\ bound <= EWh_ref r ->
             substep c h le r = Ok out ->
             refs_ok (so_refs out) /\ bound <= EWh_ref (so_refs out)).
  { intros bound h le r out [Hh _] [Hr Hb] Hout. split.
    - exact (substep_refs_ok c h le r out Hh Hr Hout).
    - destruct (substep_energy c h le r out Hh Hc Hm Hr Hout) as [He _]. lra. }
  split.
  - apply (tick_preserves
             (fun r => refs_ok r /\ EWh_ref (refs e) <= EWh_ref r) c e e');
      [apply Hstep | split; [exact Hok | lra] | exact Ht].
  - intros Hrun.
    destruct (tick_first_substep c e e' Hrun Ht)
      as [out [l [Hpos [Hout [Hl [Hrefs _]]]]]].
    destruct (substep_energy c _ None (refs e) out Hpos Hc Hm Hok Hout)
      as [He _].
    pose proof (substep_refs_ok c _ None (refs e) out Hpos Hok Hout) as Hok1.
    apply (while_loop_invariant
             (fun l => refs_ok (l_refs l)
                       /\ EWh_ref (so_refs out) <= EWh_ref (l_refs l))
             c running) in Hl as [[_ Hle] _].
    + rewrite Hrefs. lra.
    + intros l0 l1 Hc0 Hl0 Hb.
      apply loopBody_inv in Hb as [o [Ho ->]]. cbn [l_refs].
      exact (Hstep _ _ _ _ _ (loop_step_size _ _ Hc0) Hl0 Ho).
    + cbn [l_refs]. split; [exact Hok1 | lra].
Qed.

(** The first callback after a reset with the tiny job. *)
Lemma X4_energy_grows_witness :
  exists e',
    played tinyStart /\
    0 <= ceffNF tinyConfig /\ 0 <= workloadMix tinyConfig /\
    tick tinyConfig tinyStart = Ok e' /\
    EWh_ref (refs tinyStart) <= EWh_ref (refs e') /\
    (endReason (sim tinyStart) = running ->
     EWh_ref (refs tinyStart) < EWh_ref (refs e')).
Proof.
  assert (Hp : played tinyStart)
    by exact (played_reset tinyConfig tinyStart eq_refl).
  assert (Hi : (0 <= pIndex_ref (refs tinyStart) <= 6)%Z) by (cbn; lia).
  assert (Hc : 0 <= ceffNF tinyConfig) by (cbn; lra).
  assert (Hm : 0 <= workloadMix tinyConfig) by (cbn; lra).
  destruct (tick_total tinyConfig tinyStart Hi) as [e' [Ht _]].
  exists e'. split; [exact Hp |]. split; [exact Hc |]. split; [exact Hm |].
  split; [exact Ht |].
  exact (X4_energy_grows tinyConfig tinyStart e' Hp Hc Hm Ht).
Defined.

(** X5.  With a non-negative capacitance and workload mix, a callback never
    takes the chip below ambient: if the temperature is at or above the
    configured ambient before the callback, it is so afterwards. *)
Theorem X5_never_below_ambient (c : Config) (e e' : Engine) :
  played e ->
  0 <= ceffNF c -> 0 <= workloadMix c ->
  ambient c <= T_ref (refs e) ->
  tick c e = Ok e' ->
  ambient c <= T_ref (refs e').
Proof.
  intros Hp Hc Hm Ha Ht. pose proof (played_refs_ok e Hp) as Hok.
  apply (tick_preserves (fun r => refs_ok r /\ ambient c <= T_ref r) c e e');
    [| split; assumption | exact Ht].
  intros h le r out [Hh _] [Hr Hb] Hout. split.
  - exact (substep_refs_ok c h le r out Hh Hr Hout).
  - destruct (substep_energy c h le r out Hh Hc Hm Hr Hout) as [_ HT].
    exact (HT Hb).
Qed.

(** The first callback after a reset with the tiny job, which starts at
    ambient. *)
Lemma X5_never_below_ambient_witness :
  exists e',
    played tinyStart /\
    0 <= ceffNF tinyConfig /\ 0 <= workloadMix tinyConfig /\
    ambient tinyConfig <= T_ref (refs tinyStart) /\
    tick tinyConfig tinyStart = Ok e' /\
    ambient tinyConfig <= T_ref (refs e').
Proof.
  assert (Hp : played tinyStart)
    by exact (played_reset tinyConfig tinyStart eq_refl).
  assert (Hi : (0 <= pIndex_ref (refs tinyStart) <= 6)%Z) by (cbn; lia).
  assert (Hc : 0 <= ceffNF tinyConfig) by (cbn; lra).
  assert (Hm : 0 <= workloadMix tinyConfig) by (cbn; lra).
  assert (Ha : ambient tinyConfig <= T_ref (refs tinyStart)) by (cbn; lra).
  destruct (tick_total tinyConfig tinyStart Hi) as [e' [Ht _]].
  exists e'. split; [exact Hp |]. split; [exact Hc |]. split; [exact Hm |].
  split; [exact Ha |]. split; [exact Ht |].
  exact (X5_never_below_ambient tinyConfig tinyStart e' Hp Hc Hm Ha Ht).
Defined.

(** ** The simulation clock *)

(** X6.  A callback on a running engine spends at most its virtual-time
    budget [0.1 * clamp(speed, 1, 50)], between 0.1 and 5 seconds: the
    clock moves forward, by no more than the budget, and by exactly the
    budget when the run is still running afterwards. *)
Theorem X6_clock_advance (c : Config) (e e' : Engine) :
  endReason (sim e) = running ->
  tick c e = Ok e' ->
  0.1 <= budget c <= 5 /\
  t_ref (refs e) < t_ref (refs e') <= t_ref (refs e) + budget c /\
  (endReason (sim e') = running ->
   t_ref (refs e') = t_ref (refs e) + budget c).
Proof.
  intros Hrun Ht. pose proof (budget_bounds c) as Hb.
  destruct (tick_first_substep c e e' Hrun Ht)
    as [out [l [Hpos [Hout [Hl [Hrefs [_ [Hend _]]]]]]]].
  destruct (substep_slew c _ None (refs e) out Hout) as [Htime _].
  pose proof (Rmin_r P.dt (budget c)) as Hmin.
  apply (while_loop_invariant
           (fun l => t_ref (l_refs l) + vtime l = t_ref (refs e) + budget c
                     /\ 0 <= vtime l
                     /\ t_ref (refs e) < t_ref (l_refs l))
           c running) in Hl as [[Hsum [Hv Hlt]] Hexit].
  - split; [exact Hb |]. rewrite Hrefs. split; [lra |].
    intros Hstill. rewrite Hend in Hstill.
    unfold loopCond in Hexit. rewrite Hstill in Hexit. cbn in Hexit.
    destruct (Rgt_dec (vtime l) 0); [discriminate | lra].
  - intros l0 l1 Hc0 [Hs0 [Hv0 Hlt0]] Hbody.
    pose proof (loop_step_size _ _ Hc0) as [Hp0 _].
    pose proof (Rmin_r P.dt (vtime l0)) as Hm0.
    apply loopBody_inv in Hbody as [o [Ho ->]]. cbn [l_refs vtime].
    destruct (substep_slew c _ _ _ o Ho) as [Ht0 _]. rewrite Ht0. lra.
  - cbn [l_refs vtime]. rewrite Htime. lra.
Qed.

(** The first callback after a reset with the tiny job. *)
Lemma X6_clock_advance_witness :
  exists e',
    endReason (sim tinyStart) = running /\
    tick tinyConfig tinyStart = Ok e' /\
    0.1 <= budget tinyConfig <= 5 /\
    t_ref (refs tinyStart) < t_ref (refs e')
      <= t_ref (refs tinyStart) + budget tinyConfig /\
    (endReason (sim e') = running ->
     t_ref (refs e') = t_ref (refs tinyStart) + budget tinyConfig).
Proof.
  assert (Hi : (0 <= pIndex_ref (refs tinyStart) <= 6)%Z) by (cbn; lia).
  destruct (tick_total tinyConfig tinyStart Hi) as [e' [Ht _]].
  exists e'. split; [reflexivity |]. split; [exact Ht |].
  exact (X6_clock_advance tinyConfig tinyStart e' eq_refl Ht).
Defined.

(** ** The trace *)

Lemma while_loop_points (n : nat) (c : Config) (er : EndReason) (l l' : Loop) :
  while_loop n c er l = Ok l' ->
  exists extra, newPoints l' = newPoints l ++ extra /\ (length extra <= n)%nat.
Proof.
  revert l. induction n as [| n IH]; intros l Hrun.
  - simpl in Hrun. destruct (loopCond er l); [discriminate |].
    injection Hrun as <-. exists []. rewrite app_nil_r. split; [reflexivity | cbn; lia].
  - destruct (loopCond er l) eqn:Hc.
    + rewrite while_loop_iter in Hrun by exact Hc. unfold bind in Hrun.
      destruct (loopBody c l) as [l1 | |] eqn:Hb; try discriminate.
      apply loopBody_inv in Hb as [out [_ ->]].
      destruct (IH _ Hrun) as [extra [He Hlen]]. cbn [newPoints] in He.
      exists (so_point out :: extra). split.
      * rewrite He, <- app_assoc. reflexivity.
      * cbn. lia.
    + rewrite while_loop_exit in Hrun by exact Hc. injection Hrun as <-.
      exists []. rewrite app_nil_r. split; [reflexivity | cbn; lia].
Qed.

(** The trace after an append: a suffix of the old trace followed by all the
    new points; nothing is dropped up to 3000 old points. *)
Lemma appendPoints_shape (prev new : list SimPoint) :
  exists k, appendPoints prev new = skipn k prev ++ new /\
            ((length prev <= 3000)%nat -> k = 0%nat).
Proof.
  unfold appendPoints. destruct new as [| p new].
  - exists 0%nat. rewrite app_nil_r. split; reflexivity.
  - destruct (Nat.ltb_spec 3000 (length prev)) as [Hbig | Hsmall].
    + exists (length prev - 1500)%nat. split; [reflexivity | lia].
    + exists 0%nat. split; reflexivity.
Qed.

Lemma appendPoints_length (prev new : list SimPoint) :
  (length prev <= 3020)%nat -> (length new <= 20)%nat ->
  (length (appendPoints prev new) <= 3020)%nat.
Proof.
  intros Hp Hn. unfold appendPoints. destruct new as [| p new]; [exact Hp |].
  destruct (Nat.ltb_spec 3000 (length prev)) as [Hbig | Hsmall];
    rewrite length_app; [rewrite length_skipn |]; cbn in *; lia.
Qed.

Lemma tick_trace (c : Config) (e e' : Engine) :
  tick c e = Ok e' ->
  exists new, series (sim e') = appendPoints (series (sim e)) new /\
              (length new <= 20)%nat.
Proof.
  intros Ht. apply tick_inv in Ht as [l [Hl ->]]. cbn [sim series].
  apply while_loop_points in Hl as [extra [He Hlen]].
  unfold startLoop in He. cbn [newPoints app] in He.
  exists (newPoints l). split; [reflexivity |].
  rewrite He. exact Hlen.
Qed.

Lemma played_trace_length (e : Engine) :
  played e -> (length (series (sim e)) <= 3020)%nat.
Proof.
  induction 1 as [c e Hr | c e e' _ IH Ht | c playing e _ IH].
  - rewrite resetSim_fresh in Hr. injection Hr as <-. cbn. lia.
  - destruct (tick_trace c e e' Ht) as [new [-> Hlen]].
    apply appendPoints_length; assumption.
  - unfold syncWorkload. destruct playing; exact IH.
Qed.

(** X7.  The trace only ever loses points at its front and never grows
    beyond 3020 points: a callback leaves a suffix of the old trace (all of
    it when it had at most 3000 points), unchanged and in its old order,
    followed by at most 20 new points. *)
Theorem X7_trace_bounded (c : Config) (e e' : Engine) :
  played e ->
  tick c e = Ok e' ->
  (length (series (sim e)) <= 3020)%nat /\
  (length (series (sim e')) <= 3020)%nat /\
  exists k new,
    series (sim e') = skipn k (series (sim e)) ++ new /\
    (length new <= 20)%nat /\
    ((length (series (sim e)) <= 3000)%nat -> k = 0%nat).
Proof.
  intros Hp Ht. pose proof (played_trace_length e Hp) as Hlen.
  pose proof (played_trace_length e' (played_tick c e e' Hp Ht)) as Hlen'.
  split; [exact Hlen |]. split; [exact Hlen' |].
  destruct (tick_trace c e e' Ht) as [new [Hs Hn]].
  destruct (appendPoints_shape (series (sim e)) new) as [k [Hk H0]].
  exists k, new. rewrite Hs. split; [exact Hk |]. split; [exact Hn | exact H0].
Qed.

(** The first callback after a reset with the tiny job. *)
Lemma X7_trace_bounded_witness :
  exists e',
    played tinyStart /\
    tick tinyConfig tinyStart = Ok e' /\
    (length (series (sim tinyStart)) <= 3020)%nat /\
    (length (series (sim e')) <= 3020)%nat /\
    exists k new,
      series (sim e') = skipn k (series (sim tinyStart)) ++ new /\
      (length new <= 20)%nat /\
      ((length (series (sim tinyStart)) <= 3000)%nat -> k = 0%nat).
Proof.
  assert (Hp : played tinyStart)
    by exact (played_reset tinyConfig tinyStart eq_refl).
  assert (Hi : (0 <= pIndex_ref (refs tinyStart) <= 6)%Z) by (cbn; lia).
  destruct (tick_total tinyConfig tinyStart Hi) as [e' [Ht _]].
  exists e'. split; [exact Hp |]. split; [exact Ht |].
  exact (X7_trace_bounded tinyConfig tinyStart e' Hp Ht).
Defined.

(** ** Overheating takes time *)





(** ** The remaining workload on screen *)

Lemma substep_shown_remaining (c : Config) (h : R) (le : option EndReason)
    (r : Refs) (out : StepOut) :
  substep c h le r = Ok out ->
  so_remainingGI out = remainingGI_ref (so_refs out) /\
  0 <= remainingGI_ref (so_refs out).
Proof.
  intros Hout. apply substep_inv in Hout as [g [_ ->]]. cbn.
  match goal with
  | |- context [Rle_dec (Rmax 0 ?x) 0] =>
      pose proof (Rmax_l 0 x); destruct (Rle_dec (Rmax 0 x) 0); split; lra
  end.
Qed.

(** X9.  The remaining workload held in React state, which the summary and
    the progress bar show, always equals the pool the loop works on,
    through resets, callbacks and workload edits; and after a callback on a
    running engine it is not negative. *)
Theorem X9_shown_remaining_is_pool (e : Engine) :
  played e ->
  remainingGI (sim e) = remainingGI_ref (refs e) /\
  forall (c : Config) (e' : Engine),
    endReason (sim e) = running -> tick c e = Ok e' ->
    remainingGI (sim e') = remainingGI_ref (refs e') /\
    0 <= remainingGI (sim e').
Proof.
  intros Hp.
  assert (Hinv : forall e0, played e0 ->
                   remainingGI (sim e0) = remainingGI_ref (refs e0)).
  { induction 1 as [c e0 Hr | c e0 e1 _ IH Ht | c playing e0 _ IH].
    - rewrite resetSim_fresh in Hr. injection Hr as <-. reflexivity.
    - apply tick_inv in Ht as [l [Hl ->]]. cbn [sim refs remainingGI].
      apply (while_loop_invariant
               (fun l => l_remainingGI l = remainingGI_ref (l_refs l))
               c (endReason (sim e0))) in Hl as [H _]; [exact H | | exact IH].
      intros l0 l1 _ _ Hb. apply loopBody_inv in Hb as [out [Hout ->]].
      cbn [l_remainingGI l_refs].
      exact (proj1 (substep_shown_remaining _ _ _ _ _ Hout)).
    - unfold syncWorkload. destruct playing; [exact IH | reflexivity]. }
  split; [exact (Hinv e Hp) |].
  intros c e' Hrun Ht.
  pose proof (Hinv e' (played_tick c e e' Hp Ht)) as Heq.
  split; [exact Heq |]. rewrite Heq.
  destruct (tick_first_substep c e e' Hrun Ht)
    as [out [l [_ [Hout [Hl [Hrefs _]]]]]].
  rewrite Hrefs.
  apply (while_loop_invariant
           (fun l => 0 <= remainingGI_ref (l_refs l)) c running)
    in Hl as [H _]; [exact H | |].
  - intros l0 l1 _ _ Hb. apply loopBody_inv in Hb as [o [Ho ->]].
    cbn [l_refs]. exact (proj2 (substep_shown_remaining _ _ _ _ _ Ho)).
  - cbn [l_refs]. exact (proj2 (substep_shown_remaining _ _ _ _ _ Hout)).
Qed.

(** The engine right after a reset with the tiny job. *)
Lemma X9_shown_remaining_is_pool_witness :
  played tinyStart /\
  remainingGI (sim tinyStart) = remainingGI_ref (refs tinyStart) /\
  forall (c : Config) (e' : Engine),
    endReason (sim tinyStart) = running -> tick c tinyStart = Ok e' ->
    remainingGI (sim e') = remainingGI_ref (refs e') /\
    0 <= remainingGI (sim e').
Proof.
  assert (Hp : played tinyStart)
    by exact (played_reset tinyConfig tinyStart eq_refl).
  split; [exact Hp | exact (X9_shown_remaining_is_pool tinyStart Hp)].
Defined.

(** ** The governor's rules *)

(** In automatic mode, from an index inside the table, a sub-step holds the
    index while cooldown is left and otherwise moves it one table step
    towards the desired index. *)
Lemma substep_auto_index (c : Config) (h : R) (le : option EndReason)
    (r : Refs) :
  manualOverride c = false ->
  (0 <= pIndex_ref r <= 6)%Z ->
  exists out, substep c h le r = Ok out /\
    ((cooldownAfter h r <> 0 /\ pIndex_ref (so_refs out) = pIndex_ref r) \/
     (cooldownAfter h r = 0 /\
      pIndex_ref (so_refs out)
      = slewTowards (fst (desiredIndex c r)) (pIndex_ref r))).
Proof.
  intros Hm Hi. destruct (substep_total c h le r Hi) as [out [Hout _]].
  exists out. split; [exact Hout |].
  apply substep_inv in Hout as [g [Hg ->]]. cbn.
  destruct (governor_auto c h r g Hm Hg)
    as [_ [[Ei [_ [_ [_ [Hnz | Hstay]]]]] | [Hz [Ei _]]]].
  - left. split; assumption.
  - destruct (Req_dec_T (cooldownAfter h r) 0) as [Hz | Hnz].
    + right. split; [exact Hz | rewrite Hstay; exact Ei].
    + left. split; assumption.
  - right. split; assumption.
Qed.

(** X10.  In automatic mode, with a battery capacity other than 0, the chip
    at least 2 degrees below the thermal limit and more than 20 % of battery
    left, the governor steers to
    the target index of the workload mix: a sub-step never moves the index
    away from the target, leaves it alone once it is there, and moves it
    exactly one step closer whenever the cooldown has run out. *)
Theorem X10_governor_seeks_target (c : Config) (h : R)
    (le : option EndReason) (r : Refs) :
  manualOverride c = false ->
  batteryWh c <> 0 ->
  T_ref r <= thermalLimit c - HYST ->
  20 < battPctOf c (EWh_ref r) ->
  (0 <= pIndex_ref r <= 6)%Z ->
  exists out, substep c h le r = Ok out /\
    let tgt := targetPIndex c in
    let i := pIndex_ref r in
    let i' := pIndex_ref (so_refs out) in
    (Z.abs (i' - tgt) <= Z.abs (i - tgt))%Z /\
    (i = tgt -> i' = i) /\
    (cooldownAfter h r = 0 -> i <> tgt ->
     Z.abs (i' - tgt) = (Z.abs (i - tgt) - 1)%Z) /\
    (cooldownAfter h r <> 0 -> i' = i).
Proof.
  intros Hm _ HT Hb Hi.
  destruct (substep_auto_index c h le r Hm Hi) as [out [Hout Hcase]].
  exists out. split; [exact Hout |]. cbv zeta.
  rewrite (desiredIndex_cool c r HT (Rlt_le _ _ Hb)) in Hcase. cbn [fst] in Hcase.
  unfold slewTowards in Hcase.
  destruct (Z.ltb_spec (targetPIndex c) (pIndex_ref r));
    [| destruct (Z.gtb_spec (targetPIndex c) (pIndex_ref r))];
    destruct Hcase as [[Hnz ->] | [Hz ->]];
    repeat split; intros; try contradiction; lia.
Qed.

(** Index 2 after a reset with the memory-bound mix, whose target is 6. *)
Lemma X10_governor_seeks_target_witness :
  manualOverride memoryBoundConfig = false /\
  batteryWh memoryBoundConfig <> 0 /\
  T_ref (freshRefs memoryBoundConfig) <= thermalLimit memoryBoundConfig - HYST /\
  20 < battPctOf memoryBoundConfig (EWh_ref (freshRefs memoryBoundConfig)) /\
  (0 <= pIndex_ref (freshRefs memoryBoundConfig) <= 6)%Z /\
  exists out,
    substep memoryBoundConfig 0.25 None (freshRefs memoryBoundConfig) = Ok out /\
    let tgt := targetPIndex memoryBoundConfig in
    let i := pIndex_ref (freshRefs memoryBoundConfig) in
    let i' := pIndex_ref (so_refs out) in
    (Z.abs (i' - tgt) <= Z.abs (i - tgt))%Z /\
    (i = tgt -> i' = i) /\
    (cooldownAfter 0.25 (freshRefs memoryBoundConfig) = 0 -> i <> tgt ->
     Z.abs (i' - tgt) = (Z.abs (i - tgt) - 1)%Z) /\
    (cooldownAfter 0.25 (freshRefs memoryBoundConfig) <> 0 -> i' = i).
Proof.
  assert (HT : T_ref (freshRefs memoryBoundConfig)
               <= thermalLimit memoryBoundConfig - HYST)
    by (cbn; unfold HYST; lra).
  assert (Hb : 20 < battPctOf memoryBoundConfig
                      (EWh_ref (freshRefs memoryBoundConfig))).
  { unfold battPctOf. cbn [EWh_ref freshRefs batteryWh memoryBoundConfig].
    rewrite Rmax_right by lra. lra. }
  assert (Hi : (0 <= pIndex_ref (freshRefs memoryBoundConfig) <= 6)%Z)
    by (cbn; lia).
  assert (Hcap : batteryWh memoryBoundConfig <> 0) by (cbn; lra).
  split; [reflexivity |]. split; [exact Hcap |].
  split; [exact HT |]. split; [exact Hb |].
  split; [exact Hi |].
  exact (X10_governor_seeks_target memoryBoundConfig 0.25 None
           (freshRefs memoryBoundConfig) eq_refl Hcap HT Hb Hi).
Defined.

Lemma slewTowards_not_up (d i : Z) : (i <= d)%Z -> (i <= slewTowards d i)%Z.
Proof.
  intros H. unfold slewTowards.
  destruct (Z.ltb_spec d i); [lia |]. destruct (Z.gtb_spec d i); lia.
Qed.

(** X11.  Hysteresis: in automatic mode, while the temperature is above
    [thermalLimit - 2] (inside the band or at or over the limit), a
    sub-step never moves the index towards a faster P-state, whatever the
    workload target and the battery are. *)
Theorem X11_no_speed_up_near_limit (c : Config) (h : R)
    (le : option EndReason) (r : Refs) :
  manualOverride c = false ->
  T_ref r > thermalLimit c - HYST ->
  (0 <= pIndex_ref r <= 6)%Z ->
  exists out, substep c h le r = Ok out /\
    (pIndex_ref r <= fst (desiredIndex c r))%Z /\
    (pIndex_ref r <= pIndex_ref (so_refs out))%Z.
Proof.
  intros Hm HT Hi.
  destruct (substep_auto_index c h le r Hm Hi) as [out [Hout Hcase]].
  exists out. split; [exact Hout |].
  assert (Hd : (pIndex_ref r <= fst (desiredIndex c r))%Z).
  { unfold desiredIndex. rewrite pstates_length_7.
    destruct (Rge_dec (T_ref r) (thermalLimit c));
      [| destruct (Rgt_dec (T_ref r) (thermalLimit c - HYST)); [| lra]];
      destruct (Rlt_dec (battPctOf c (EWh_ref r)) 20); cbn [fst]; lia. }
  split; [exact Hd |].
  destruct Hcase as [[_ ->] | [_ ->]]; [lia |].
  apply slewTowards_not_up. exact Hd.
Qed.

(** Index 2 with the temperature exactly at the default limit. *)
Lemma X11_no_speed_up_near_limit_witness :
  manualOverride defaultConfig = false /\
  T_ref limitRefs > thermalLimit defaultConfig - HYST /\
  (0 <= pIndex_ref limitRefs <= 6)%Z /\
  exists out, substep defaultConfig 0.25 None limitRefs = Ok out /\
    (pIndex_ref limitRefs <= fst (desiredIndex defaultConfig limitRefs))%Z /\
    (pIndex_ref limitRefs <= pIndex_ref (so_refs out))%Z.
Proof.
  assert (HT : T_ref limitRefs > thermalLimit defaultConfig - HYST)
    by (cbn; unfold HYST; lra).
  assert (Hi : (0 <= pIndex_ref limitRefs <= 6)%Z) by (cbn; lia).
  split; [reflexivity |]. split; [exact HT |]. split; [exact Hi |].
  exact (X11_no_speed_up_near_limit defaultConfig 0.25 None limitRefs
           eq_refl HT Hi).
Defined.

(** X12.  Battery saver: in automatic mode, with less than 20 % of battery
    left, the desired index is at least 3, so a sub-step never takes the
    index from 3 or beyond to a faster entry than index 3 (1.8 GHz), and
    never speeds up from an entry faster than that. *)
Theorem X12_low_battery_floor (c : Config) (h : R) (le : option EndReason)
    (r : Refs) :
  manualOverride c = false ->
  battPctOf c (EWh_ref r) < 20 ->
  (0 <= pIndex_ref r <= 6)%Z ->
  exists out, substep c h le r = Ok out /\
    (3 <= fst (desiredIndex c r))%Z /\
    (Z.min (pIndex_ref r) 3 <= pIndex_ref (so_refs out))%Z /\
    ((3 <= pIndex_ref r)%Z -> (3 <= pIndex_ref (so_refs out))%Z).
Proof.
  intros Hm Hb Hi.
  destruct (substep_auto_index c h le r Hm Hi) as [out [Hout Hcase]].
  exists out. split; [exact Hout |].
  assert (Hd : (3 <= fst (desiredIndex c r))%Z).
  { unfold desiredIndex.
    destruct (Rge_dec (T_ref r) (thermalLimit c));
      [| destruct (Rgt_dec (T_ref r) (thermalLimit c - HYST))];
      (destruct (Rlt_dec (battPctOf c (EWh_ref r)) 20); [| lra]);
      cbn [fst]; lia. }
  split; [exact Hd |].
  assert (Hs : (Z.min (pIndex_ref r) 3
                <= slewTowards (fst (desiredIndex c r)) (pIndex_ref r))%Z).
  { unfold slewTowards.
    destruct (Z.ltb_spec (fst (desiredIndex c r)) (pIndex_ref r)); [lia |].
    destruct (Z.gtb_spec (fst (desiredIndex c r)) (pIndex_ref r)); lia. }
  destruct Hcase as [[_ ->] | [_ ->]]; split; intros; lia.
Qed.

(** Index 1 with under 7 % of the default battery left. *)
Lemma X12_low_battery_floor_witness :
  manualOverride defaultConfig = false /\
  battPctOf defaultConfig (EWh_ref lowBatteryRefs) < 20 /\
  (0 <= pIndex_ref lowBatteryRefs <= 6)%Z /\
  exists out, substep defaultConfig 0.25 None lowBatteryRefs = Ok out /\
    (3 <= fst (desiredIndex defaultConfig lowBatteryRefs))%Z /\
    (Z.min (pIndex_ref lowBatteryRefs) 3 <= pIndex_ref (so_refs out))%Z /\
    ((3 <= pIndex_ref lowBatteryRefs)%Z -> (3 <= pIndex_ref (so_refs out))%Z).
Proof.
  assert (Hb : battPctOf defaultConfig (EWh_ref lowBatteryRefs) < 20).
  { unfold battPctOf. cbn [EWh_ref lowBatteryRefs batteryWh defaultConfig].
    rewrite Rmax_right by lra. lra. }
  assert (Hi : (0 <= pIndex_ref lowBatteryRefs <= 6)%Z) by (cbn; lia).
  split; [reflexivity |]. split; [exact Hb |]. split; [exact Hi |].
  exact (X12_low_battery_floor defaultConfig 0.25 None lowBatteryRefs
           eq_refl Hb Hi).
Defined.

(** ** The target index *)

Lemma Int_part_le (x y : R) : x <= y -> (Int_part x <= Int_part y)%Z.
Proof.
  intros Hxy. destruct (base_Int_part x) as [Hx _].
  destruct (base_Int_part y) as [_ Hy].
  assert (H : IZR (Int_part x) < IZR (Int_part y + 1))
    by (rewrite plus_IZR; lra).
  apply lt_IZR in H. lia.
Qed.

Lemma Math_round_near (x : R) :
  IZR (JS.Math_round x) - 1 / 2 <= x < IZR (JS.Math_round x) + 1 / 2.
Proof.
  unfold JS.Math_round. destruct (base_Int_part (x + 1 / 2)) as [H1 H2]. lra.
Qed.

(** X13.  The target index is always inside the table; for a workload mix
    between 0 and 1 it is the table index nearest to [6 * (1 - mix)]
    (within a half, so 0 at mix 1 and 6 at mix 0); and a more
    compute-bound mix never gives a slower target. *)
Theorem X13_target_index (c c' : Config) :
  (0 <= targetPIndex c <= 6)%Z /\
  (0 <= workloadMix c <= 1 ->
   Rabs (IZR (targetPIndex c) - 6 * (1 - workloadMix c)) <= 1 / 2) /\
  (workloadMix c <= workloadMix c' ->
   (targetPIndex c' <= targetPIndex c)%Z).
Proof.
  split; [apply targetPIndex_range |]. split.
  - intros [H0 H1]. unfold targetPIndex, JS.clampZ. rewrite pstates_length_7.
    replace (7 - 1)%Z with 6%Z by reflexivity.
    pose proof (Math_round_near ((1 - workloadMix c) * 6)) as [Hlo Hhi].
    set (n := JS.Math_round ((1 - workloadMix c) * 6)) in *.
    assert (Hn0 : (0 <= n)%Z).
    { assert (H : IZR (-1) < IZR n) by (simpl; nra).
      apply lt_IZR in H. lia. }
    assert (Hn6 : (n <= 6)%Z).
    { assert (H : IZR n < IZR 7) by (simpl; nra).
      apply lt_IZR in H. lia. }
    rewrite Z.min_r, Z.max_r by lia.
    apply Rabs_le. lra.
  - intros Hm. unfold targetPIndex, JS.clampZ. rewrite pstates_length_7.
    assert (Hr : (JS.Math_round ((1 - workloadMix c') * IZR (7 - 1))
                  <= JS.Math_round ((1 - workloadMix c) * IZR (7 - 1)))%Z).
    { unfold JS.Math_round. apply Int_part_le.
      replace (7 - 1)%Z with 6%Z by reflexivity. lra. }
    lia.
Qed.

(** The default mix 0.9 against the memory-bound mix 0. *)
Lemma X13_target_index_witness :
  0 <= workloadMix defaultConfig <= 1 /\
  workloadMix memoryBoundConfig <= workloadMix defaultConfig /\
  Rabs (IZR (targetPIndex defaultConfig) - 6 * (1 - workloadMix defaultConfig))
    <= 1 / 2 /\
  (targetPIndex defaultConfig <= targetPIndex memoryBoundConfig)%Z.
Proof.
  assert (H1 : 0 <= workloadMix defaultConfig <= 1) by (cbn; lra).
  assert (H2 : workloadMix memoryBoundConfig <= workloadMix defaultConfig)
    by (cbn; lra).
  split; [exact H1 |]. split; [exact H2 |].
  split.
  - exact (proj1 (proj2 (X13_target_index defaultConfig defaultConfig)) H1).
  - exact (proj2 (proj2 (X13_target_index memoryBoundConfig defaultConfig)) H2).
Defined.

(** ** The battery gauge *)

Lemma div_le_pos (a b w : R) : 0 < w -> (a / w <= b / w <-> a <= b).
Proof.
  intros Hw. assert (Hi : 0 < / w) by (apply Rinv_0_lt_compat; exact Hw).
  unfold Rdiv. split; intros H.
  - apply (Rmult_le_reg_r (/ w)); assumption.
  - apply Rmult_le_compat_r; [lra | exact H].
Qed.






(** ** The progress bar *)

(** For a positive workload, the ratio before clamping. *)
Lemma progress_ratio (w d : R) :
  0 < w -> 0 <= d ->
  0 <= 100 * d / w /\ (100 * d / w >= 100 <-> d >= w).
Proof.
  intros Hw Hd.
  assert (Hi : 0 < / w) by (apply Rinv_0_lt_compat; exact Hw).
  split.
  - unfold Rdiv. apply Rmult_le_pos; lra.
  - assert (Hq : 100 * d / w * w = 100 * d) by (field; lra).
    set (q := 100 * d / w) in *.
    split; intros H; nra.
Qed.

(** X15.  The progress percentage is always between 0 and 100, is 0 when
    the configured workload is not positive, and for a positive workload
    [w] it equals [100 * (w - remaining) / w] while the remaining workload
    is between 0 and [w], reaches 100 exactly when nothing remains, and
    never goes down as the remaining workload shrinks. *)
Theorem X15_progress_percent (c : Config) (rem rem' : R) :
  0 <= progressPct c rem <= 100 /\
  (workloadGI c <= 0 -> progressPct c rem = 0) /\
  (0 < workloadGI c ->
   (0 <= rem <= workloadGI c ->
    progressPct c rem = 100 * (workloadGI c - rem) / workloadGI c) /\
   (progressPct c rem = 100 <-> rem <= 0) /\
   (rem' <= rem -> progressPct c rem <= progressPct c rem')).
Proof.
  unfold progressPct.
  destruct (Rgt_dec (workloadGI c) 0) as [Hw | Hw].
  - set (w := workloadGI c) in *.
    assert (Hdone : forall x, 0 <= Rmax 0 (w - x)) by (intros; apply Rmax_l).
    assert (Hcl : forall y, 0 <= y ->
              JS.clamp y 0 100 = Rmin 100 y).
    { intros y Hy. unfold JS.clamp. apply Rmax_right.
      apply Rmin_glb; lra. }
    destruct (progress_ratio w (Rmax 0 (w - rem)) Hw (Hdone rem)) as [Hr0 Hr1].
    rewrite (Hcl _ Hr0).
    split; [split; [apply Rmin_glb; lra | apply Rmin_l] |].
    split; [intros; lra |]. intros _. split; [| split].
    + intros [H0 H1]. rewrite (Rmax_right 0 (w - rem)) by lra.
      apply Rmin_right.
      assert (Hq : 100 * (w - rem) / w * w = 100 * (w - rem)) by (field; lra).
      set (q := 100 * (w - rem) / w) in *. nra.
    + split.
      * intros H100.
        assert (Hge : 100 * Rmax 0 (w - rem) / w >= 100).
        { unfold Rmin in H100.
          destruct (Rle_dec 100 (100 * Rmax 0 (w - rem) / w)); lra. }
        apply Hr1 in Hge. unfold Rmax in Hge.
        destruct (Rle_dec 0 (w - rem)); lra.
      * intros Hrem. apply Rmin_left. apply Rge_le, Hr1.
        rewrite Rmax_right by lra. lra.
    + intros Hle.
      destruct (progress_ratio w (Rmax 0 (w - rem')) Hw (Hdone rem'))
        as [Hr0' _].
      rewrite (Hcl _ Hr0').
      apply Rle_min_compat_l.
      apply (div_le_pos _ _ w Hw).
      apply Rmult_le_compat_l; [lra |].
      apply Rle_max_compat_l. lra.
  - split; [lra |]. split; [reflexivity |]. intros Hpos. lra.
Qed.

(** Half of the default 1000 billion instructions left, against 250 left. *)
Lemma X15_progress_percent_witness :
  0 < workloadGI defaultConfig /\
  0 <= 500 <= workloadGI defaultConfig /\
  250 <= 500 /\
  progressPct defaultConfig 500
    = 100 * (workloadGI defaultConfig - 500) / workloadGI defaultConfig /\
  (progressPct defaultConfig 500 = 100 <-> 500 <= 0) /\
  progressPct defaultConfig 500 <= progressPct defaultConfig 250.
Proof.
  assert (Hw : 0 < workloadGI defaultConfig) by (cbn; lra).
  assert (Hr : 0 <= 500 <= workloadGI defaultConfig) by (cbn; lra).
  assert (Hle : 250 <= 500) by lra.
  pose proof (proj2 (proj2 (X15_progress_percent defaultConfig 500 250)) Hw)
    as H.
  split; [exact Hw |]. split; [exact Hr |]. split; [exact Hle |].
  split; [exact (proj1 H Hr) |].
  split; [exact (proj1 (proj2 H)) | exact (proj2 (proj2 H) Hle)].
Defined.

(** ** Rounding for display *)

(** X16.  [toFixed] is idempotent: rounding a number that was already
    rounded to [d] decimals changes nothing, so the values stored in a
    point (rounded when the point is built) are shown unchanged when the
    status bar applies [toFixed] with the same number of decimals again. *)
Theorem X16_toFixed_idempotent (d : nat) (x : R) :
  JS.toFixed d (JS.toFixed d x) = JS.toFixed d x.
Proof.
  pose proof (pow10_pos d) as Hp.
  unfold JS.toFixed at 2 3.
  destruct (Rle_dec 1e21 (Rabs x)) as [Hbig | Hsmall].
  - unfold JS.toFixed. destruct (Rle_dec 1e21 (Rabs x)); [reflexivity | contradiction].
  - destruct (base_Int_part (Rabs x * 10 ^ d + 1 / 2)) as [Hlo Hhi].
    remember (Int_part (Rabs x * 10 ^ d + 1 / 2)) as n eqn:Hn.
    assert (Hn0 : (0 <= n)%Z).
    { pose proof (Rabs_pos x) as Ha.
      assert (0 <= Rabs x * 10 ^ d) by (apply Rmult_le_pos; lra).
      assert (H' : IZR (-1) < IZR n) by (simpl; lra).
      apply lt_IZR in H'. lia. }
    assert (HnR : 0 <= IZR n) by (apply IZR_le in Hn0; exact Hn0).
    assert (Hv0 : 0 <= IZR n / 10 ^ d).
    { unfold Rdiv. apply Rmult_le_pos;
        [exact HnR | apply Rlt_le, Rinv_0_lt_compat; exact Hp]. }
    assert (Hfix : JS.toFixed d (IZR n / 10 ^ d) = IZR n / 10 ^ d).
    { unfold JS.toFixed. rewrite (Rabs_right (IZR n / 10 ^ d)) by lra.
      destruct (Rle_dec 1e21 (IZR n / 10 ^ d)); [reflexivity |].
      replace (IZR n / 10 ^ d * 10 ^ d) with (IZR n) by (field; lra).
      replace (Int_part (IZR n + 1 / 2)) with n
        by (apply Int_part_spec; lra).
      destruct (Rlt_dec (IZR n / 10 ^ d) 0); [lra | reflexivity]. }
    clear Hn Hlo Hhi.
    destruct (Rlt_dec x 0) as [Hneg | Hpos]; [| exact Hfix].
    destruct (Z.eq_dec n 0) as [-> | Hnz].
    + replace (- (0 / 10 ^ d)) with (0 / 10 ^ d) by (unfold Rdiv; ring).
      exact Hfix.
    + assert (Hn1 : 1 <= IZR n) by (apply IZR_le; lia).
      assert (Hvpos : 0 < IZR n / 10 ^ d).
      { unfold Rdiv. apply Rmult_lt_0_compat;
          [lra | apply Rinv_0_lt_compat; exact Hp]. }
      unfold JS.toFixed.
      rewrite Rabs_Ropp, (Rabs_right (IZR n / 10 ^ d)) by lra.
      destruct (Rle_dec 1e21 (IZR n / 10 ^ d)); [reflexivity |].
      replace (IZR n / 10 ^ d * 10 ^ d) with (IZR n) by (field; lra).
      replace (Int_part (IZR n + 1 / 2)) with n
        by (apply Int_part_spec; lra).
      destruct (Rlt_dec (- (IZR n / 10 ^ d)) 0); [reflexivity | lra].
Qed.

(** ** Work done per callback *)

Lemma perfGIPS_bound (c : Config) (fq : R) :
  0 <= fq <= P.fMax -> perfGIPS c fq <= Rmax 0 (ipc c) * P.fMax.
Proof.
  intros [H0 H1]. unfold perfGIPS, P.fMax in *. unfold Rmax.
  destruct (Rle_dec 0 (ipc c * fq)); destruct (Rle_dec 0 (ipc c)); nra.
Qed.

(** X17.  A callback cannot do more work than the fastest table entry
    allows in its time budget: the remaining workload drops by at most
    [max 0 ipc * fMax * budget] billion instructions, that is by at most
    [ipc * 3.5] per simulated second. *)
Theorem X17_work_per_callback (c : Config) (e e' : Engine) :
  played e ->
  tick c e = Ok e' ->
  remainingGI_ref (refs e) - Rmax 0 (ipc c) * P.fMax * budget c
    <= remainingGI_ref (refs e').
Proof.
  intros Hp Ht. pose proof (played_refs_ok e Hp) as Hok.
  pose proof (budget_bounds c) as Hb.
  pose proof (Rmax_l 0 (ipc c)) as HR.
  apply tick_inv in Ht as [l [Hl ->]]. cbn [refs].
  apply (while_loop_invariant
           (fun l => refs_ok (l_refs l) /\ 0 <= vtime l /\
                     remainingGI_ref (refs e)
                     - Rmax 0 (ipc c) * P.fMax * (budget c - vtime l)
                     <= remainingGI_ref (l_refs l))
           c (endReason (sim e))) in Hl as [[_ [Hv Hrem]] _].
  - unfold P.fMax in *. nra.
  - intros l0 l1 Hc0 [Hok0 [Hv0 Hr0]] Hbody.
    pose proof (loop_step_size _ _ Hc0) as [Hh _].
    pose proof (Rmin_r P.dt (vtime l0)) as Hmin.
    apply loopBody_inv in Hbody as [out [Hout ->]]. cbn [l_refs vtime].
    pose proof (substep_refs_ok c _ _ _ out Hh Hok0 Hout) as Hok1.
    split; [exact Hok1 |]. split; [lra |].
    destruct Hok1 as [_ [Hf _]].
    apply substep_inv in Hout as [g [_ ->]]. cbn in *.
    assert (Hperf : perfGIPS c (g_f g) <= Rmax 0 (ipc c) * P.fMax)
      by (apply perfGIPS_bound; unfold P.fMin in Hf; lra).
    pose proof (Rmax_r 0 (remainingGI_ref (l_refs l0)
                          - perfGIPS c (g_f g) * Rmin P.dt (vtime l0))) as Hmx.
    pose proof (perfGIPS_nonneg c (g_f g)) as Hpn.
    unfold P.fMax in *. nra.
  - unfold startLoop. cbn [l_refs vtime]. fold (budget c).
    split; [exact Hok |]. split; [lra |]. lra.
Qed.

(** The first callback after a reset with the tiny job. *)
Lemma X17_work_per_callback_witness :
  exists e',
    played tinyStart /\
    tick tinyConfig tinyStart = Ok e' /\
    remainingGI_ref (refs tinyStart)
      - Rmax 0 (ipc tinyConfig) * P.fMax * budget tinyConfig
      <= remainingGI_ref (refs e').
Proof.
  assert (Hp : played tinyStart)
    by exact (played_reset tinyConfig tinyStart eq_refl).
  assert (Hi : (0 <= pIndex_ref (refs tinyStart) <= 6)%Z) by (cbn; lia).
  destruct (tick_total tinyConfig tinyStart Hi) as [e' [Ht _]].
  exists e'. split; [exact Hp |]. split; [exact Ht |].
  exact (X17_work_per_callback tinyConfig tinyStart e' Hp Ht).
Defined.

(** ** The thermal update as a flow *)

(** X19.  The thermal update is the exact flow of
    [dT/dt = (Tss - T) / tau]: a step of size 0 changes nothing, the
    steady state [Tss] is a fixed point for every step size, two steps at
    the same power equal one step of the summed size, and as a function of
    the step size the new temperature has derivative [(Tss - T_new) / tau]
    everywhere.  So at constant power the result does not depend on how the
    elapsed time is cut into sub-steps. *)
Theorem X19_thermal_flow (c : Config) (p tt h1 h2 : R) :
  thermalStep c 0 p tt = tt /\
  thermalStep c h1 p (Tss c p) = Tss c p /\
  thermalStep c h2 p (thermalStep c h1 p tt) = thermalStep c (h1 + h2) p tt /\
  derivable_pt_lim (fun x => thermalStep c x p tt) h1
    ((Tss c p - thermalStep c h1 p tt) / tau c).
Proof.
  split; [apply thermalStep_start |].
  split; [unfold thermalStep; ring |].
  split; [apply thermalStep_compose | apply thermalStep_solves_ode].
Qed.

(** ** Leakage *)

Lemma exp_le (x y : R) : x <= y -> exp x <= exp y.
Proof.
  intros [Hlt | ->]; [apply Rlt_le, exp_increasing; exact Hlt | apply Rle_refl].
Qed.

(** X20.  Leakage power is positive, equals [Pleak0 = 0.6] W at the
    reference point (0.8 V, 25 degrees), and grows with temperature and with
    voltage; hence at a fixed operating point a hotter chip never draws
    less total power. *)
Theorem X20_leakage_grows (c : Config) (fq vv vv' tt tt' : R) :
  0 < Pleak vv tt /\
  Pleak 0.8 25 = P.Pleak0 /\
  (tt <= tt' -> Pleak vv tt <= Pleak vv tt') /\
  (vv <= vv' -> Pleak vv tt <= Pleak vv' tt) /\
  (tt <= tt' -> Ptot c fq vv tt <= Ptot c fq vv tt').
Proof.
  assert (HT : tt <= tt' -> Pleak vv tt <= Pleak vv tt').
  { intros Hle. unfold Pleak, P.Pleak0, P.kV, P.gamma.
    pose proof (exp_pos (2.0 * (vv - 0.8))) as Hv.
    assert (He : exp (0.04 * (tt - 25)) <= exp (0.04 * (tt' - 25)))
      by (apply exp_le; lra).
    apply Rmult_le_compat_l; [| exact He].
    apply Rmult_le_pos; lra. }
  split; [apply Pleak_pos |]. split.
  - unfold Pleak, P.Pleak0, P.kV, P.gamma.
    replace (2.0 * (0.8 - 0.8)) with 0 by lra.
    replace (0.04 * (25 - 25)) with 0 by lra.
    rewrite exp_0. lra.
  - split; [exact HT |]. split.
    + intros Hle. unfold Pleak, P.Pleak0, P.kV, P.gamma.
      pose proof (exp_pos (0.04 * (tt - 25))) as Ht.
      assert (He : exp (2.0 * (vv - 0.8)) <= exp (2.0 * (vv' - 0.8)))
        by (apply exp_le; lra).
      apply Rmult_le_compat_r; [lra |].
      apply Rmult_le_compat_l; [lra | exact He].
    + intros Hle. unfold Ptot. pose proof (HT Hle). lra.
Qed.

(** 30 degrees against 40 degrees, 0.8 V against 0.9 V, at 2.2 GHz. *)
Lemma X20_leakage_grows_witness :
  30 <= 40 /\ 0.8 <= 0.9 /\
  Pleak 0.8 30 <= Pleak 0.8 40 /\
  Pleak 0.8 30 <= Pleak 0.9 30 /\
  Ptot defaultConfig 2.2 0.8 30 <= Ptot defaultConfig 2.2 0.8 40.
Proof.
  assert (HT : 30 <= 40) by lra.
  assert (HV : 0.8 <= 0.9) by lra.
  pose proof (X20_leakage_grows defaultConfig 2.2 0.8 0.9 30 40)
    as [_ [_ [H1 [H2 H3]]]].
  split; [exact HT |]. split; [exact HV |].
  split; [exact (H1 HT) |]. split; [exact (H2 HV) | exact (H3 HT)].
Defined.

(** * Hot and cold instances *)

(** With the override at 3.5 GHz and 1.1 V a chip at 60 degrees stays more
    than 5 degrees over the limit: its target is above 63 degrees. *)
Lemma hot_step_stays_hot (out : StepOut) :
  substep hotConfig 0.25 None hotRefs = Ok out ->
  T_ref (so_refs out) > thermalLimit hotConfig + 5.
Proof.
  unfold substep. rewrite governor_manual by reflexivity. cbn [bind].
  intros H. injection H as <-.
  cbn [so_refs afterGovernor T_ref g_f g_V hotRefs thermalLimit hotConfig
       freqGHz vdd].
  unfold P.fMin, P.fMax, P.vMin, P.vMax. rewrite !clamp_inside by lra.
  set (p := Ptot hotConfig 3.5 1.1 60).
  assert (Hp : 4 < p).
  { unfold p, Ptot, Pdyn, alpha. cbn [ceffNF workloadMix hotConfig].
    pose proof (Pleak_pos 1.1 60). lra. }
  assert (Hh : 0 < 0.25) by lra.
  pose proof (thermalStep_between hotConfig 0.25 p 60 Hh) as [Hlo _].
  assert (Hss : 47 < Tss hotConfig p)
    by (unfold Tss, Rth; cbn [ambient hotConfig]; lra).
  assert (Hmin : 47 < Rmin 60 (Tss hotConfig p))
    by (unfold Rmin; destruct (Rle_dec 60 (Tss hotConfig p)); lra).
  lra.
Qed.

(** With the override at 2.2 GHz and 0.8 V a chip at 25 degrees does not get
    more than 5 degrees over the limit: its target is 42.64 degrees. *)
Lemma cooled_step_stays_cool (out : StepOut) :
  substep manualConfig 0.25 None cooledRefs = Ok out ->
  ~ T_ref (so_refs out) > thermalLimit manualConfig + 5.
Proof.
  unfold substep. rewrite governor_manual by reflexivity. cbn [bind].
  intros H. injection H as <-.
  cbn [so_refs afterGovernor T_ref g_f g_V cooledRefs thermalLimit manualConfig].
  pose proof manual_first_power as Hp.
  cbn [T_ref freshRefs ambient manualConfig] in Hp.
  cbn [freqGHz vdd manualConfig]. cbn [freqGHz vdd manualConfig] in Hp.
  rewrite Hp.
  assert (Hh : 0 < 0.25) by lra.
  pose proof (thermalStep_between manualConfig 0.25 2.20512 25 Hh) as [_ Hhi].
  assert (Hmax : Rmax 25 (Tss manualConfig 2.20512) <= 47).
  { unfold Tss, Rth. cbn [ambient manualConfig].
    apply Rmax_lub; lra. }
  lra.
Qed.

(** The chip at 60 degrees with 4.9 s on the accumulator crosses the 5 s of
    grace and the run ends with reason [overheat]; the chip back at 25
    degrees with 1 s on the accumulator gives half a second back and the
    run goes on. *)
Lemma C5_overheat_monitor_witness :
  (0 <= pIndex_ref hotRefs <= 6)%Z /\
  (exists out, substep hotConfig 0.25 None hotRefs = Ok out /\
     T_ref (so_refs out) > thermalLimit hotConfig + 5 /\
     overheatAccum_ref (so_refs out) = overheatAccum_ref hotRefs + 0.25 /\
     overheatAccum_ref (so_refs out) >= Rmax 1 (overheatGrace hotConfig) /\
     so_end out = Some overheat) /\
  (0 <= pIndex_ref cooledRefs <= 6)%Z /\
  (exists out, substep manualConfig 0.25 None cooledRefs = Ok out /\
     ~ T_ref (so_refs out) > thermalLimit manualConfig + 5 /\
     overheatAccum_ref (so_refs out)
       = Rmax 0 (overheatAccum_ref cooledRefs - 2 * 0.25) /\
     overheatAccum_ref (so_refs out) = 0.5 /\
     ~ overheatAccum_ref (so_refs out) >= Rmax 1 (overheatGrace manualConfig) /\
     so_end out <> Some overheat).
Proof.
  assert (Hi1 : (0 <= pIndex_ref hotRefs <= 6)%Z) by (cbn; lia).
  assert (Hi2 : (0 <= pIndex_ref cooledRefs <= 6)%Z) by (cbn; lia).
  split; [exact Hi1 |]. split; [| split; [exact Hi2 |]].
  - destruct (C5_overheat_monitor hotConfig 0.25 hotRefs Hi1)
      as [out [Hout [Hacc [_ [Hend _]]]]].
    pose proof (hot_step_stays_hot out Hout) as Hhot.
    pose proof (Hacc Hhot) as Ha.
    assert (Hge : overheatAccum_ref (so_refs out)
                  >= Rmax 1 (overheatGrace hotConfig)).
    { rewrite Ha. cbn [overheatAccum_ref hotRefs overheatGrace hotConfig].
      rewrite Rmax_right by lra. lra. }
    exists out. split; [exact Hout |]. split; [exact Hhot |].
    split; [exact Ha |]. split; [exact Hge | exact (proj2 Hend Hge)].
  - destruct (C5_overheat_monitor manualConfig 0.25 cooledRefs Hi2)
      as [out [Hout [_ [Hdec [Hend _]]]]].
    pose proof (cooled_step_stays_cool out Hout) as Hcool.
    destruct (Hdec Hcool) as [Ha _].
    assert (Hhalf : overheatAccum_ref (so_refs out) = 0.5).
    { rewrite Ha. cbn [overheatAccum_ref cooledRefs].
      rewrite Rmax_right by lra. lra. }
    assert (Hlt : ~ overheatAccum_ref (so_refs out)
                    >= Rmax 1 (overheatGrace manualConfig)).
    { rewrite Hhalf. cbn [overheatGrace manualConfig].
      rewrite Rmax_right by lra. lra. }
    exists out. split; [exact Hout |]. split; [exact Hcool |].
    split; [exact Ha |]. split; [exact Hhalf |]. split; [exact Hlt |].
    intros Hov. exact (Hlt (proj1 Hend Hov)).
Defined.

(** After a default reset the chip sits at ambient, below its target. *)
Lemma default_first_target_above (out : StepOut) :
  substep defaultConfig 0.25 None (freshRefs defaultConfig) = Ok out ->
  T_ref (freshRefs defaultConfig)
  < ambient defaultConfig
    + Ptot defaultConfig (f_ref (so_refs out)) (V_ref (so_refs out))
        (T_ref (freshRefs defaultConfig)) * Rth.
Proof.
  intros Hout.
  assert (Hh : 0 < 0.25) by lra.
  pose proof (substep_refs_ok defaultConfig 0.25 None _ out Hh
                (freshRefs_ok defaultConfig) Hout) as [_ [Hf _]].
  assert (Hfq : 0 <= f_ref (so_refs out)) by (unfold P.fMin in Hf; lra).
  assert (Hc : 0 <= ceffNF defaultConfig) by (cbn; lra).
  assert (Hm : 0 <= workloadMix defaultConfig) by (cbn; lra).
  pose proof (Ptot_pos defaultConfig (f_ref (so_refs out))
                (V_ref (so_refs out)) (T_ref (freshRefs defaultConfig))
                Hc Hm Hfq) as Hp.
  unfold Rth. cbn [T_ref freshRefs ambient defaultConfig] in *. lra.
Qed.

(** With the override at 0.6 GHz and 0.6 V the target of a chip at 50
    degrees is below 42 degrees. *)
Lemma cool_target_below (out : StepOut) :
  substep coolConfig 0.25 None warmRefs = Ok out ->
  ambient coolConfig
  + Ptot coolConfig (f_ref (so_refs out)) (V_ref (so_refs out))
      (T_ref warmRefs) * Rth
  < T_ref warmRefs.
Proof.
  unfold substep. rewrite governor_manual by reflexivity. cbn [bind].
  intros H. injection H as <-.
  cbn [so_refs afterGovernor f_ref V_ref T_ref g_f g_V warmRefs ambient
       coolConfig freqGHz vdd].
  unfold P.fMin, P.fMax, P.vMin, P.vMax. rewrite !clamp_inside by lra.
  unfold Ptot, Pdyn, Pleak, alpha, P.Pleak0, P.kV, P.gamma, Rth.
  cbn [ceffNF workloadMix coolConfig].
  assert (Hv : exp (2.0 * (0.6 - 0.8)) <= 1)
    by (rewrite <- exp_0; apply exp_le; lra).
  assert (Ht : exp (0.04 * (50 - 25)) <= 3).
  { replace (0.04 * (50 - 25)) with 1 by lra. exact exp_le_3. }
  pose proof (exp_pos (2.0 * (0.6 - 0.8))) as Hv0.
  pose proof (exp_pos (0.04 * (50 - 25))) as Ht0.
  assert (Hprod : exp (2.0 * (0.6 - 0.8)) * exp (0.04 * (50 - 25)) <= 3) by nra.
  nra.
Qed.

(** After a default reset the chip warms from 25 degrees strictly towards
    its target without reaching it; with the override at the bottom of both
    sliders a chip at 50 degrees cools strictly towards its target. *)
Lemma C8_temperature_never_overshoots_witness :
  0 < 0.25 /\
  (0 <= pIndex_ref (freshRefs defaultConfig) <= 6)%Z /\
  (exists out,
     substep defaultConfig 0.25 None (freshRefs defaultConfig) = Ok out /\
     let p := Ptot defaultConfig (f_ref (so_refs out)) (V_ref (so_refs out))
                   (T_ref (freshRefs defaultConfig)) in
     let T_ss := ambient defaultConfig + p * Rth in
     T_ref (freshRefs defaultConfig) < T_ss /\
     T_ref (freshRefs defaultConfig) < T_ref (so_refs out) < T_ss /\
     Rabs (T_ss - T_ref (so_refs out))
       < Rabs (T_ss - T_ref (freshRefs defaultConfig))) /\
  (0 <= pIndex_ref warmRefs <= 6)%Z /\
  (exists out,
     substep coolConfig 0.25 None warmRefs = Ok out /\
     let p := Ptot coolConfig (f_ref (so_refs out)) (V_ref (so_refs out))
                   (T_ref warmRefs) in
     let T_ss := ambient coolConfig + p * Rth in
     T_ss < T_ref warmRefs /\
     T_ss < T_ref (so_refs out) < T_ref warmRefs /\
     Rabs (T_ss - T_ref (so_refs out)) < Rabs (T_ss - T_ref warmRefs)).
Proof.
  assert (Hh : 0 < 0.25) by lra.
  assert (Hi1 : (0 <= pIndex_ref (freshRefs defaultConfig) <= 6)%Z)
    by (cbn; lia).
  assert (Hi2 : (0 <= pIndex_ref warmRefs <= 6)%Z) by (cbn; lia).
  split; [exact Hh |]. split; [exact Hi1 |].
  split; [| split; [exact Hi2 |]].
  - destruct (C8_temperature_never_overshoots defaultConfig 0.25 None
                (freshRefs defaultConfig) Hh Hi1)
      as [out [Hout [_ [_ [_ [_ [_ [Hup [_ [_ [Hstrict _]]]]]]]]]]].
    pose proof (default_first_target_above out Hout) as Hlt.
    exists out. split; [exact Hout |]. cbv zeta.
    split; [exact Hlt |]. split; [exact (Hup Hlt) |].
    exact (Hstrict (Rlt_not_eq _ _ Hlt)).
  - destruct (C8_temperature_never_overshoots coolConfig 0.25 None
                warmRefs Hh Hi2)
      as [out [Hout [_ [_ [_ [_ [_ [_ [Hdown [_ [Hstrict _]]]]]]]]]]].
    pose proof (cool_target_below out Hout) as Hlt.
    exists out. split; [exact Hout |]. cbv zeta.
    split; [exact Hlt |]. split; [exact (Hdown Hlt) |].
    exact (Hstrict (Rgt_not_eq _ _ Hlt)).
Defined.
